(** * Model of the language-model call instrumentation wrappers

    Shallow embedding of [src/src/model-logging.ts] (module [Logging]) and of
    its older variant [src/src/model-progress.ts] (module [Progress]), with the
    helpers both files share in module [Common].

    Conventions of the embedding:
    - JavaScript strings are [string] (one [ascii] per UTF-16 code unit);
      [length], [slice(0, n)] and [substring(0, n)] become [String.length]
      and [substring 0 n].
    - The regular expression [\s] and [trim()] match, among the code units
      an [ascii] can hold, 9 to 13, 32 and 160 (no-break space).
    - Every console line of one call starts with the prefix
      [[modelName #callId]]; a [logline] records what follows that prefix.
    - The wall-clock duration printed in completion lines is not modelled.
    - The counter [activeCalls] shared by the calls of one wrapper instance is
      threaded explicitly as a [Z]. *)

From Stdlib Require Import String Ascii List ZArith Bool Lia Permutation.
Import ListNotations.
#[local] Set Warnings "-register-all".

Module Common.

Open Scope string_scope.

(** ** JavaScript values *)

(** The payloads the wrappers look at ([args], [input], [result], [error]).
    Numbers are integers; NaN is not modelled. *)
Inductive value :=
| VUndefined
| VNull
| VBool (b : bool)
| VNum (n : Z)
| VStr (s : string)
| VArr (items : list value)
| VObj (fields : list (string * value)).

(** JavaScript truthiness ([if (!args)]). *)
Definition falsy (v : value) : bool :=
  match v with
  | VUndefined | VNull => true
  | VBool b => negb b
  | VNum n => Z.eqb n 0
  | VStr s => String.eqb s ""
  | VArr _ | VObj _ => false
  end.

Definition truthy_str (s : string) : bool := negb (String.eqb s "").

Definition dq : ascii := "034".
Definition bs : ascii := "092".
Definition dq_s : string := String dq EmptyString.

Fixpoint join (sep : string) (l : list string) : string :=
  match l with
  | [] => ""
  | [x] => x
  | x :: rest => x ++ sep ++ join sep rest
  end.

Fixpoint uint_to_string (u : Decimal.uint) : string :=
  match u with
  | Decimal.Nil => ""
  | Decimal.D0 r => "0" ++ uint_to_string r
  | Decimal.D1 r => "1" ++ uint_to_string r
  | Decimal.D2 r => "2" ++ uint_to_string r
  | Decimal.D3 r => "3" ++ uint_to_string r
  | Decimal.D4 r => "4" ++ uint_to_string r
  | Decimal.D5 r => "5" ++ uint_to_string r
  | Decimal.D6 r => "6" ++ uint_to_string r
  | Decimal.D7 r => "7" ++ uint_to_string r
  | Decimal.D8 r => "8" ++ uint_to_string r
  | Decimal.D9 r => "9" ++ uint_to_string r
  end.

(** [String(n)] for an integer [n]. *)
Definition Z_to_string (z : Z) : string :=
  match Z.to_int z with
  | Decimal.Pos u => uint_to_string u
  | Decimal.Neg u => "-" ++ uint_to_string u
  end.

Definition hex_digit (n : nat) : string :=
  String (ascii_of_nat (if Nat.ltb n 10 then 48 + n else 87 + n)) EmptyString.

(** Escaping of a string body by [JSON.stringify]. *)
Fixpoint json_escape (s : string) : string :=
  match s with
  | EmptyString => ""
  | String c r =>
      let n := nat_of_ascii c in
      let e :=
        if Ascii.eqb c dq then String bs (String dq EmptyString)
        else if Ascii.eqb c bs then String bs (String bs EmptyString)
        else if Nat.eqb n 8 then String bs "b"
        else if Nat.eqb n 9 then String bs "t"
        else if Nat.eqb n 10 then String bs "n"
        else if Nat.eqb n 12 then String bs "f"
        else if Nat.eqb n 13 then String bs "r"
        else if Nat.ltb n 32 then String bs ("u00" ++ hex_digit (n / 16) ++ hex_digit (n mod 16))
        else String c EmptyString in
      e ++ json_escape r
  end.

Definition json_quote (s : string) : string := dq_s ++ json_escape s ++ dq_s.

(** [JSON.stringify]; [None] is the JavaScript [undefined] it returns for
    [undefined]. On these values it never throws (no BigInt, no cycles). *)
Fixpoint JSON_stringify (v : value) : option string :=
  match v with
  | VUndefined => None
  | VNull => Some "null"
  | VBool b => Some (if b then "true" else "false")
  | VNum n => Some (Z_to_string n)
  | VStr s => Some (json_quote s)
  | VArr items =>
      Some ("[" ++ join ","
              (map (fun x => match JSON_stringify x with
                             | Some s => s
                             | None => "null"
                             end) items) ++ "]")
  | VObj fields =>
      Some ("{" ++ join ","
              (flat_map (fun kv => match JSON_stringify (snd kv) with
                                   | Some s => [json_quote (fst kv) ++ ":" ++ s]
                                   | None => []
                                   end) fields) ++ "}")
  end.

(** [String(v)]. *)
Fixpoint js_String (v : value) : string :=
  match v with
  | VUndefined => "undefined"
  | VNull => "null"
  | VBool b => if b then "true" else "false"
  | VNum n => Z_to_string n
  | VStr s => s
  | VArr items =>
      join "," (map (fun x => match x with
                              | VUndefined | VNull => ""
                              | _ => js_String x
                              end) items)
  | VObj _ => "[object Object]"
  end.

(** ** String operations *)

Definition is_ws (c : ascii) : bool :=
  let n := nat_of_ascii c in
  (Nat.eqb n 32) || (Nat.eqb n 160) || (Nat.leb 9 n && Nat.leb n 13).

(** [s.replace(/\s+/g, ' ')]: every maximal run of whitespace becomes one
    space; [in_ws] says the previous character was whitespace. *)
Fixpoint collapse_ws (in_ws : bool) (l : list ascii) : list ascii :=
  match l with
  | [] => []
  | c :: r =>
      if is_ws c then
        (if in_ws then collapse_ws true r else " "%char :: collapse_ws true r)
      else c :: collapse_ws false r
  end.

Fixpoint drop_ws (l : list ascii) : list ascii :=
  match l with
  | [] => []
  | c :: r => if is_ws c then drop_ws r else l
  end.

Definition js_replace_ws (s : string) : string :=
  string_of_list_ascii (collapse_ws false (list_ascii_of_string s)).

(** [s.trim()]. *)
Definition js_trim (s : string) : string :=
  string_of_list_ascii (rev (drop_ws (rev (drop_ws (list_ascii_of_string s))))).

(** [s.replace(/"/g, '\\"')]. *)
Fixpoint escape_dq (s : string) : string :=
  match s with
  | EmptyString => EmptyString
  | String c r =>
      if Ascii.eqb c dq then String bs (String dq (escape_dq r))
      else String c (escape_dq r)
  end.

(** [key.split('-')[0]]. *)
Fixpoint split_dash_first (s : string) : string :=
  match s with
  | EmptyString => EmptyString
  | String c r => if Ascii.eqb c "-" then EmptyString else String c (split_dash_first r)
  end.

(** ** Maps and sets with insertion order ([Map], [Set]) *)

Fixpoint map_get (k : string) (m : list (string * string)) : option string :=
  match m with
  | [] => None
  | (k', v) :: r => if String.eqb k k' then Some v else map_get k r
  end.

Fixpoint map_set (k v : string) (m : list (string * string)) : list (string * string) :=
  match m with
  | [] => [(k, v)]
  | (k', v') :: r => if String.eqb k k' then (k, v) :: r else (k', v') :: map_set k v r
  end.

Definition map_delete (k : string) (m : list (string * string)) : list (string * string) :=
  filter (fun kv => negb (String.eqb k (fst kv))) m.

Definition set_has (x : string) (s : list string) : bool := existsb (String.eqb x) s.

Definition set_add (x : string) (s : list string) : list string :=
  if set_has x s then s else (s ++ [x])%list.

(** ** Prompt Previewer (identical in both files) *)

Definition PREVIEW_LIMIT : nat := 40.
Definition TOOL_RESULT_PREVIEW_LIMIT : nat := 100.

Inductive part :=
| PText (text : string)
| PNonText.

Inductive msg_content :=
| ContentParts (parts : list part)
| ContentNotArray.

Inductive message :=
| MSystem (content : string)
| MOther (content : msg_content).

Inductive prompt_field :=
| PromptArray (msgs : list message)
| PromptNotArray.

Record call_options := { prompt : prompt_field }.

Record PromptPreview := { pv_text : string; pv_truncated : bool }.

(** The closure [appendText] over the locals [preview] and [truncated]. *)
Definition appendText (text : string) (st : string * bool) : string * bool :=
  let (preview, truncated) := st in
  if Nat.leb PREVIEW_LIMIT (String.length preview) then (preview, true) else
  let sanitized := js_trim (js_replace_ws text) in
  if negb (truthy_str sanitized) then (preview, truncated) else
  let segment := if Nat.ltb 0 (String.length preview) then " " ++ sanitized else sanitized in
  if negb (truthy_str segment) then (preview, truncated) else
  let remaining := PREVIEW_LIMIT - String.length preview in
  let truncated' := if Nat.ltb remaining (String.length segment) then true else truncated in
  (preview ++ substring 0 remaining segment, truncated').

(** Inner loop [for (const part of message.content)]. *)
Fixpoint preview_parts (parts : list part) (st : string * bool) : string * bool :=
  match parts with
  | [] => st
  | p :: rest =>
      if Nat.leb PREVIEW_LIMIT (String.length (fst st)) then (fst st, true) else
      let st1 := match p with PText t => appendText t st | PNonText => st end in
      if Nat.leb PREVIEW_LIMIT (String.length (fst st1)) then (fst st1, true)
      else preview_parts rest st1
  end.

(** Outer loop [for (const message of prompt)]. *)
Fixpoint preview_messages (msgs : list message) (st : string * bool) : string * bool :=
  match msgs with
  | [] => st
  | m :: rest =>
      if Nat.leb PREVIEW_LIMIT (String.length (fst st)) then (fst st, true) else
      match m with
      | MSystem c => preview_messages rest (appendText c st)
      | MOther ContentNotArray => preview_messages rest st
      | MOther (ContentParts parts) => preview_messages rest (preview_parts parts st)
      end
  end.

Definition getPromptPreview (params : option call_options) : option PromptPreview :=
  match params with
  | None => None
  | Some p =>
      match prompt p with
      | PromptNotArray => None
      | PromptArray msgs =>
          let (preview, truncated) := preview_messages msgs ("", false) in
          if negb (truthy_str preview) then None
          else Some {| pv_text := preview; pv_truncated := truncated |}
      end
  end.

Definition formatPromptSuffix (preview : option PromptPreview) : string :=
  match preview with
  | None => ""
  | Some pv =>
      let escaped := escape_dq (pv_text pv) in
      let display := if pv_truncated pv then escaped ++ "..." else escaped in
      " | prompt: " ++ dq_s ++ display ++ dq_s
  end.

(** Successive, independent invocations of the previewer: its state
    ([preview], [truncated]) is local to each invocation. *)
Fixpoint run_previewer_session (inputs : list (option call_options)) : list (option PromptPreview) :=
  match inputs with
  | [] => []
  | p :: rest => getPromptPreview p :: run_previewer_session rest
  end.

(** ** Types of the provider interface ([@ai-sdk/provider]) *)

Record usage := {
  inputTokens : option Z;
  outputTokens : option Z;
  totalTokens : option Z
}.

(** [LanguageModelV2StreamPart]; [ToolCall] carries the optional [args] and
    [input] fields ([None]: the key is absent); [OtherChunk] stands for the
    chunk types no wrapper inspects ([text-start], [stream-start], ...). *)
Inductive chunk :=
| TextDelta (delta : string)
| ReasoningStart
| ReasoningDelta (delta : string)
| ReasoningEnd
| ToolCall (toolCallId toolName : string) (args input : option value)
| ToolInputStart (id toolName : string)
| ToolInputDelta (id delta : string)
| ToolInputEnd (id : string)
| ToolResult (toolCallId toolName : string) (result : value)
| ErrorChunk (error : option value)
| Finish (u : usage) (finishReason : string)
| OtherChunk (type_ : string).

(** Parts of [result.content] of a generate call. *)
Inductive content_part :=
| CText (text : string)
| CToolCall (toolCallId toolName : string) (args input : option value)
| CToolResult (toolCallId : string) (result : value)
| COther.

(** What the awaited [doGenerate()] does: resolve with a result, or throw. *)
Inductive gen_outcome :=
| GenOk (content : list content_part) (u : usage)
| GenThrow (error : value).

(** What the awaited [doStream()] does: throw; resolve with a stream that
    delivers [chunks] and then closes; or resolve with a stream that delivers
    [chunks] and then errors, or is cancelled by its reader. In the last case
    the [TransformStream] is aborted and never calls [flush]. *)
Inductive stream_outcome :=
| StreamThrow (error : value)
| StreamOk (chunks : list chunk)
| StreamAbort (chunks : list chunk) (reason : value).

Inductive call :=
| GenerateCall (params : option call_options) (o : gen_outcome)
| StreamCall (params : option call_options) (o : stream_outcome).

Inductive mode := Generating | Streaming.

Inductive token_info :=
| TokensInOut (input output : Z)   (* [`${inputTokens}→${outputTokens} tokens`] *)
| TokensOut (output : Z).          (* [`${outputTokens} tokens`] *)

(** Console lines, after the [[modelName #callId]] prefix. *)
Inductive logline :=
| StartLine (m : mode) (promptSuffix : string) (active : Z)
| ToolCallLine (toolName args : string)
| ToolResultLine (toolName result : string)
| ReasoningStartLine
| ReasoningCompleteLine (preview : string)
| ModelErrorLine (msg : string)
| CompleteLine (m : mode) (tokens : token_info) (active : Z) (finishInfo resultSuffix : string)
| NoFinishWarning (active : Z).

(** The [resultSuffix] block of [logCompletion] (same code in both files). *)
Definition resultSuffix_of (text : string) : string :=
  if truthy_str text then
    let preview := js_replace_ws (js_trim text) in
    let truncated :=
      if Nat.ltb PREVIEW_LIMIT (String.length preview)
      then substring 0 PREVIEW_LIMIT preview ++ "..." else preview in
    " | result: " ++ dq_s ++ escape_dq truncated ++ dq_s
  else "".

(** [Array.from(names).map(name => `tool:${name}`).join(', ')]. *)
Definition tool_log (names : list string) : string :=
  join ", " (map (fun name => "tool:" ++ name) names).

(** [let logText = fullText; if (fullText && toolLog) ...]. *)
Definition compose_log_text (fullText toolLog : string) : string :=
  if truthy_str fullText && truthy_str toolLog then fullText ++ ", " ++ toolLog
  else if truthy_str toolLog then toolLog
  else fullText.

(** ** Interleaved calls on one wrapper instance

    A call runs as a list of atomic steps (code between two suspension
    points), each acting on [activeCalls]; the event loop interleaves the
    steps of concurrent calls in any order that keeps each call's own order. *)

Fixpoint set_nth {A} (i : nat) (x : A) (l : list A) : list A :=
  match l, i with
  | [], _ => []
  | _ :: r, O => x :: r
  | y :: r, S j => y :: set_nth j x r
  end.

Fixpoint run_schedule (sched : list nat) (threads : list (list (Z -> Z))) (active : Z)
  : list (list (Z -> Z)) * Z :=
  match sched with
  | [] => (threads, active)
  | i :: rest =>
      match nth_error threads i with
      | Some (step :: steps) => run_schedule rest (set_nth i steps threads) (step active)
      | _ => run_schedule rest threads active
      end
  end.

Definition all_completed (threads : list (list (Z -> Z))) : Prop :=
  Forall (fun t => t = []) threads.

End Common.

(** * [src/src/model-logging.ts] *)
Module Logging.
Import Common.
Open Scope string_scope.

(** [getToolArguments(part)]: [args] is [part.args] when the key exists, else
    [part.input] when that key exists, else [undefined]. *)
Definition getToolArguments (args input : option value) : string :=
  let a := match args with
           | Some v => v
           | None => match input with Some v => v | None => VUndefined end
           end in
  if falsy a then "" else
  match a with
  | VStr s => s
  | _ => match JSON_stringify a with Some s => s | None => "undefined" end
  end.

(** [formatToolResult(result)]: when [JSON.stringify] yields [undefined],
    reading [.length] throws and the catch returns the placeholder. *)
Definition formatToolResult (result : value) : string :=
  let resultStr := match result with
                   | VStr s => Some s
                   | _ => JSON_stringify result
                   end in
  match resultStr with
  | None => "[stringify error]"
  | Some s =>
      if Nat.ltb TOOL_RESULT_PREVIEW_LIMIT (String.length s)
      then substring 0 TOOL_RESULT_PREVIEW_LIMIT s ++ "..." else s
  end.

Definition logCompletion (u : option usage) (m : mode) (activeCalls : Z)
    (text : string) (finishReason : option string) : logline :=
  let inputTokens := match u with
                     | Some r => match inputTokens r with Some n => n | None => 0%Z end
                     | None => 0%Z end in
  let outputTokens := match u with
                      | Some r => match outputTokens r with Some n => n | None => 0%Z end
                      | None => 0%Z end in
  let tokenInfo := if Z.ltb 0 inputTokens then TokensInOut inputTokens outputTokens
                   else TokensOut outputTokens in
  let finishInfo := match finishReason with
                    | Some r => if truthy_str r then " | reason: " ++ r else ""
                    | None => "" end in
  CompleteLine m tokenInfo activeCalls finishInfo (resultSuffix_of text).

(** *** [wrapGenerate] *)

(** Code up to [await doGenerate()]: [activeCalls++] and the start line. *)
Definition gen_begin (params : option call_options) (activeCalls : Z) : Z * logline :=
  let promptSuffix := formatPromptSuffix (getPromptPreview params) in
  let a := (activeCalls + 1)%Z in
  (a, StartLine Generating promptSuffix a).

(** [result.content.forEach(...)]: state is ([textParts], [toolCallMap], lines). *)
Definition gen_part (st : list string * list (string * string) * list logline)
    (p : content_part) : list string * list (string * string) * list logline :=
  let '(textParts, toolCallMap, lines) := st in
  match p with
  | CText t => (app textParts [t], toolCallMap, lines)
  | CToolCall id name args input =>
      let toolCallMap' := if truthy_str id then map_set id name toolCallMap else toolCallMap in
      (app textParts ["tool:" ++ name], toolCallMap',
       app lines [ToolCallLine name (getToolArguments args input)])
  | CToolResult id result =>
      let toolName := if truthy_str id
                      then match map_get id toolCallMap with Some n => n | None => "unknown" end
                      else "unknown" in
      (textParts, toolCallMap, app lines [ToolResultLine toolName (formatToolResult result)])
  | COther => st
  end.

Definition gen_text (content : list content_part) : string :=
  let '(textParts, _, _) := fold_left gen_part content ([], [], []) in
  join ", " textParts.

(** Code after [await doGenerate()] resumes: the [try] body or the [catch].
    Returns the new counter, the value returned ([inl]) or thrown ([inr]),
    and the lines written. *)
Definition gen_end (activeCalls : Z) (o : gen_outcome)
    : Z * ((list content_part * usage) + value) * list logline :=
  match o with
  | GenThrow error => ((activeCalls - 1)%Z, inr error, [])
  | GenOk content u =>
      let a := (activeCalls - 1)%Z in
      let '(textParts, _, lines) := fold_left gen_part content ([], [], []) in
      let text := join ", " textParts in
      (a, inl (content, u), app lines [logCompletion (Some u) Generating a text None])
  end.

Definition wrapGenerate (params : option call_options) (activeCalls : Z) (o : gen_outcome)
    : Z * ((list content_part * usage) + value) * list logline :=
  let '(a1, start) := gen_begin params activeCalls in
  let '(a2, r, lines) := gen_end a1 o in
  (a2, r, start :: lines).

(** *** [wrapStream] *)

(** Per-call locals of [wrapStream] read and written by the transform. *)
Record stream_acc := {
  fullText : string;
  reasoningText : string;
  toolInputs : list (string * string);
  toolCallIds : list (string * string);
  loggedToolCalls : list string;
  streamFinished : bool;
  finishReason : option string
}.

Definition init_acc : stream_acc :=
  {| fullText := ""; reasoningText := ""; toolInputs := []; toolCallIds := [];
     loggedToolCalls := []; streamFinished := false; finishReason := None |}.

Definition with_maps (acc : stream_acc) (inputs ids : list (string * string))
    (logged : list string) : stream_acc :=
  {| fullText := fullText acc; reasoningText := reasoningText acc;
     toolInputs := inputs; toolCallIds := ids; loggedToolCalls := logged;
     streamFinished := streamFinished acc; finishReason := finishReason acc |}.

(** [toolInputs.clear(); toolCallIds.clear(); loggedToolCalls.clear()]. *)
Definition clear_maps (acc : stream_acc) : stream_acc := with_maps acc [] [] [].

(** The [if / else if] chain of [transform] that runs before
    [controller.enqueue(chunk)]. *)
Definition observe (acc : stream_acc) (ch : chunk) : stream_acc * list logline :=
  match ch with
  | TextDelta d =>
      ({| fullText := fullText acc ++ d; reasoningText := reasoningText acc;
          toolInputs := toolInputs acc; toolCallIds := toolCallIds acc;
          loggedToolCalls := loggedToolCalls acc; streamFinished := streamFinished acc;
          finishReason := finishReason acc |}, [])
  | ReasoningStart => (acc, [ReasoningStartLine])
  | ReasoningDelta d =>
      ({| fullText := fullText acc; reasoningText := reasoningText acc ++ d;
          toolInputs := toolInputs acc; toolCallIds := toolCallIds acc;
          loggedToolCalls := loggedToolCalls acc; streamFinished := streamFinished acc;
          finishReason := finishReason acc |}, [])
  | ReasoningEnd =>
      let preview := js_replace_ws (js_trim (reasoningText acc)) in
      let truncated := if Nat.ltb PREVIEW_LIMIT (String.length preview)
                       then substring 0 PREVIEW_LIMIT preview ++ "..." else preview in
      (acc, [ReasoningCompleteLine truncated])
  | ToolCall toolCallId toolName args input =>
      let ids := if truthy_str toolCallId then map_set toolCallId toolName (toolCallIds acc)
                 else toolCallIds acc in
      let callKey := if truthy_str toolCallId then toolName ++ "-" ++ toolCallId
                     else toolName ++ "-default" in
      if set_has callKey (loggedToolCalls acc)
      then (with_maps acc (toolInputs acc) ids (loggedToolCalls acc), [])
      else (with_maps acc (toolInputs acc) ids (set_add callKey (loggedToolCalls acc)),
            [ToolCallLine toolName (getToolArguments args input)])
  | ToolInputStart id toolName =>
      (with_maps acc (map_set id "" (toolInputs acc)) (map_set id toolName (toolCallIds acc))
                 (loggedToolCalls acc), [])
  | ToolInputDelta id d =>
      let currentInput := match map_get id (toolInputs acc) with Some i => i | None => "" end in
      (with_maps acc (map_set id (currentInput ++ d) (toolInputs acc)) (toolCallIds acc)
                 (loggedToolCalls acc), [])
  | ToolInputEnd id =>
      match map_get id (toolCallIds acc) with
      | Some toolName =>
          if truthy_str toolName then
            let callKey := toolName ++ "-" ++ id in
            let '(logged, lines) :=
              if set_has callKey (loggedToolCalls acc) then (loggedToolCalls acc, [])
              else (set_add callKey (loggedToolCalls acc),
                    [ToolCallLine toolName
                       (match map_get id (toolInputs acc) with Some i => i | None => "" end)]) in
            (with_maps acc (map_delete id (toolInputs acc)) (toolCallIds acc) logged, lines)
          else (acc, [])
      | None => (acc, [])
      end
  | ToolResult toolCallId _ result =>
      let toolName := match map_get toolCallId (toolCallIds acc) with
                      | Some n => n | None => "unknown" end in
      (acc, [ToolResultLine toolName (formatToolResult result)])
  | ErrorChunk error =>
      let errorMsg := match error with Some e => js_String e | None => "unknown error" end in
      (acc, [ModelErrorLine errorMsg])
  | Finish _ _ | OtherChunk _ => (acc, [])
  end.

(** [uniqueTools] built from [loggedToolCalls] with [key.split('-')[0]]. *)
Definition unique_tools (keys : list string) : list string :=
  fold_left (fun s key => set_add (split_dash_first key) s) keys [].

(** [logText] of the [finish] branch. *)
Definition finish_text (acc : stream_acc) : string :=
  compose_log_text (fullText acc) (tool_log (unique_tools (loggedToolCalls acc))).

(** [transform(chunk, controller)]: the new locals, the chunks enqueued and
    the lines written. It reads [activeCalls] but never writes it. The
    [catch] is not reachable in this model: no operation above throws. *)
Definition transform (activeCalls : Z) (acc : stream_acc) (ch : chunk)
    : stream_acc * list chunk * list logline :=
  let '(acc1, lines) := observe acc ch in
  let enqueued := [ch] in
  match ch with
  | Finish u reason =>
      let acc2 := {| fullText := fullText acc1; reasoningText := reasoningText acc1;
                     toolInputs := toolInputs acc1; toolCallIds := toolCallIds acc1;
                     loggedToolCalls := loggedToolCalls acc1; streamFinished := true;
                     finishReason := Some reason |} in
      let line := logCompletion (Some u) Streaming (activeCalls - 1) (finish_text acc2)
                    (Some reason) in
      (clear_maps acc2, enqueued, app lines [line])
  | _ => (acc1, enqueued, lines)
  end.

(** [flush()]: runs once when the source stream closes. *)
Definition flush (activeCalls : Z) (acc : stream_acc) : Z * stream_acc * list logline :=
  if negb (streamFinished acc) then
    let a := (activeCalls - 1)%Z in (a, clear_maps acc, [NoFinishWarning a])
  else ((activeCalls - 1)%Z, clear_maps acc, []).

(** [originalStream.pipeThrough(transformStream)] on the chunks up to the
    close; returns the final locals, the chunks delivered downstream and the
    lines written. *)
Fixpoint pipe (activeCalls : Z) (acc : stream_acc) (chunks : list chunk)
    : stream_acc * list chunk * list logline :=
  match chunks with
  | [] => (acc, [], [])
  | ch :: rest =>
      let '(acc1, out1, lines1) := transform activeCalls acc ch in
      let '(acc2, out2, lines2) := pipe activeCalls acc1 rest in
      (acc2, app out1 out2, app lines1 lines2)
  end.

Definition stream_output (activeCalls : Z) (chunks : list chunk) : list chunk :=
  let '(_, out, _) := pipe activeCalls init_acc chunks in out.

(** Code up to [await doStream()]. *)
Definition stream_begin (params : option call_options) (activeCalls : Z) : Z * logline :=
  let promptSuffix := formatPromptSuffix (getPromptPreview params) in
  let a := (activeCalls + 1)%Z in
  (a, StartLine Streaming promptSuffix a).

(** Resumption after [await doStream()]: the [catch] decrements. *)
Definition stream_open (activeCalls : Z) (o : stream_outcome) : Z :=
  match o with
  | StreamThrow _ => (activeCalls - 1)%Z
  | StreamOk _ | StreamAbort _ _ => activeCalls
  end.

(** Atomic steps of a call, as their effect on [activeCalls]. The locals of a
    stream ([stream_acc]) are updated by [observe], which does not read the
    counter, so they are computed without it. [flush] runs only when the
    source stream closes ([closes = true]). *)
Fixpoint chunk_steps (closes : bool) (acc : stream_acc) (chunks : list chunk)
    : list (Z -> Z) :=
  match chunks with
  | [] => if closes then [fun a => let '(a', _, _) := flush a acc in a'] else []
  | ch :: rest =>
      (fun a => a) :: chunk_steps closes (let '(acc', _, _) := transform 0%Z acc ch in acc') rest
  end.

Definition thread (c : call) : list (Z -> Z) :=
  match c with
  | GenerateCall p o =>
      [fun a => fst (gen_begin p a); fun a => let '(a', _, _) := gen_end a o in a']
  | StreamCall p o =>
      (fun a => fst (stream_begin p a)) :: (fun a => stream_open a o) ::
      match o with
      | StreamThrow _ => []
      | StreamOk chunks => chunk_steps true init_acc chunks
      | StreamAbort chunks _ => chunk_steps false init_acc chunks
      end
  end.

End Logging.

(** * [src/src/model-progress.ts] *)
Module Progress.
Import Common.
Open Scope string_scope.

Definition logCompletion (u : option usage) (m : mode) (activeCalls : Z) (text : string)
    : logline :=
  (* [usage?.outputTokens ?? usage?.totalTokens ?? 0] *)
  let outputTokens := match u with
                      | Some r => match outputTokens r with
                                  | Some n => n
                                  | None => match totalTokens r with Some n => n | None => 0%Z end
                                  end
                      | None => 0%Z
                      end in
  CompleteLine m (TokensOut outputTokens) activeCalls "" (resultSuffix_of text).

(** *** [wrapGenerate] *)

Definition gen_begin (params : option call_options) (activeCalls : Z) : Z * logline :=
  let promptSuffix := formatPromptSuffix (getPromptPreview params) in
  let a := (activeCalls + 1)%Z in
  (a, StartLine Generating promptSuffix a).

(** [result.content.map(...).filter(Boolean).join(', ')]. *)
Definition gen_text (content : list content_part) : string :=
  let mapped := map (fun p => match p with
                              | CText t => Some t
                              | CToolCall _ name _ _ => Some ("tool:" ++ name)
                              | _ => None
                              end) content in
  join ", " (flat_map (fun o => match o with
                                | Some s => if truthy_str s then [s] else []
                                | None => []
                                end) mapped).

Definition gen_end (activeCalls : Z) (o : gen_outcome)
    : Z * ((list content_part * usage) + value) * list logline :=
  match o with
  | GenThrow error => ((activeCalls - 1)%Z, inr error, [])
  | GenOk content u =>
      let a := (activeCalls - 1)%Z in
      (a, inl (content, u), [logCompletion (Some u) Generating a (gen_text content)])
  end.

Definition wrapGenerate (params : option call_options) (activeCalls : Z) (o : gen_outcome)
    : Z * ((list content_part * usage) + value) * list logline :=
  let '(a1, start) := gen_begin params activeCalls in
  let '(a2, r, lines) := gen_end a1 o in
  (a2, r, start :: lines).

(** *** [wrapStream] *)

Record stream_acc := { fullText : string; toolNames : list string }.

Definition init_acc : stream_acc := {| fullText := ""; toolNames := [] |}.

(** [transform(chunk, controller)]: it decrements [activeCalls] on [finish].
    There is no [flush]. *)
Definition transform (activeCalls : Z) (acc : stream_acc) (ch : chunk)
    : Z * stream_acc * list chunk * list logline :=
  let acc1 := match ch with
              | TextDelta d => {| fullText := fullText acc ++ d; toolNames := toolNames acc |}
              | ToolCall _ name _ _ => {| fullText := fullText acc;
                                          toolNames := set_add name (toolNames acc) |}
              | ToolInputStart _ name => {| fullText := fullText acc;
                                            toolNames := set_add name (toolNames acc) |}
              | _ => acc
              end in
  let enqueued := [ch] in
  match ch with
  | Finish u _ =>
      let a := (activeCalls - 1)%Z in
      let logText := compose_log_text (fullText acc1) (tool_log (toolNames acc1)) in
      (a, acc1, enqueued, [logCompletion (Some u) Streaming a logText])
  | _ => (activeCalls, acc1, enqueued, [])
  end.

Fixpoint pipe (activeCalls : Z) (acc : stream_acc) (chunks : list chunk)
    : Z * stream_acc * list chunk * list logline :=
  match chunks with
  | [] => (activeCalls, acc, [], [])
  | ch :: rest =>
      let '(a1, acc1, out1, lines1) := transform activeCalls acc ch in
      let '(a2, acc2, out2, lines2) := pipe a1 acc1 rest in
      (a2, acc2, app out1 out2, app lines1 lines2)
  end.

Definition stream_output (activeCalls : Z) (chunks : list chunk) : list chunk :=
  let '(_, _, out, _) := pipe activeCalls init_acc chunks in out.

Definition stream_begin (params : option call_options) (activeCalls : Z) : Z * logline :=
  let promptSuffix := formatPromptSuffix (getPromptPreview params) in
  let a := (activeCalls + 1)%Z in
  (a, StartLine Streaming promptSuffix a).

Definition stream_open (activeCalls : Z) (o : stream_outcome) : Z :=
  match o with
  | StreamThrow _ => (activeCalls - 1)%Z
  | StreamOk _ | StreamAbort _ _ => activeCalls
  end.

(** Steps of a stream: one per chunk, nothing when the stream closes. *)
Fixpoint chunk_steps (acc : stream_acc) (chunks : list chunk) : list (Z -> Z) :=
  match chunks with
  | [] => []
  | ch :: rest =>
      (fun a => let '(a', _, _, _) := transform a acc ch in a') ::
      chunk_steps (let '(_, acc', _, _) := transform 0%Z acc ch in acc') rest
  end.

Definition thread (c : call) : list (Z -> Z) :=
  match c with
  | GenerateCall p o =>
      [fun a => fst (gen_begin p a); fun a => let '(a', _, _) := gen_end a o in a']
  | StreamCall p o =>
      (fun a => fst (stream_begin p a)) :: (fun a => stream_open a o) ::
      match o with
      | StreamThrow _ => []
      | StreamOk chunks | StreamAbort chunks _ => chunk_steps init_acc chunks
      end
  end.

End Progress.

(** * [src/unnamed/part_006]: inline argument extraction of a third variant *)
Module Part006.
Import Common.
Open Scope string_scope.

(** [const args = 'args' in part ? part.args : ('input' in part ? part.input : undefined);
     const argsStr = args ? (typeof args === 'string' ? args : JSON.stringify(args)) : '';] *)
Definition tool_call_args (args input : option value) : string :=
  let a := match args with
           | Some v => v
           | None => match input with Some v => v | None => VUndefined end
           end in
  if negb (falsy a) then
    match a with
    | VStr s => s
    | _ => match JSON_stringify a with Some s => s | None => "undefined" end
    end
  else "".

(** The inline tool-result formatting: [typeof result === 'string' ? result :
    JSON.stringify(result)], cut to 100 characters and "..."; when
    [JSON.stringify] yields [undefined], reading [.length] throws and the
    [catch] prints "[stringify error]". *)
Definition format_result (result : value) : string :=
  let resultStr := match result with
                   | VStr s => Some s
                   | _ => JSON_stringify result
                   end in
  match resultStr with
  | None => "[stringify error]"
  | Some s => if Nat.ltb 100 (String.length s) then substring 0 100 s ++ "..." else s
  end.

(** Its [logCompletion] is the one of [model-progress], character for
    character. *)
Definition logCompletion := Progress.logCompletion.

(** *** [wrapGenerate] *)

Definition gen_begin (params : option call_options) (activeCalls : Z) : Z * logline :=
  let promptSuffix := formatPromptSuffix (getPromptPreview params) in
  let a := (activeCalls + 1)%Z in
  (a, StartLine Generating promptSuffix a).

Definition gen_part (st : list string * list (string * string) * list logline)
    (p : content_part) : list string * list (string * string) * list logline :=
  let '(textParts, toolCallMap, lines) := st in
  match p with
  | CText t => (app textParts [t], toolCallMap, lines)
  | CToolCall id name args input =>
      let toolCallMap' := if truthy_str id then map_set id name toolCallMap else toolCallMap in
      (app textParts ["tool:" ++ name], toolCallMap',
       app lines [ToolCallLine name (tool_call_args args input)])
  | CToolResult id result =>
      let toolName := if truthy_str id
                      then match map_get id toolCallMap with Some n => n | None => "unknown" end
                      else "unknown" in
      (textParts, toolCallMap, app lines [ToolResultLine toolName (format_result result)])
  | COther => st
  end.

Definition gen_end (activeCalls : Z) (o : gen_outcome)
    : Z * ((list content_part * usage) + value) * list logline :=
  match o with
  | GenThrow error => ((activeCalls - 1)%Z, inr error, [])
  | GenOk content u =>
      let a := (activeCalls - 1)%Z in
      let '(textParts, _, lines) := fold_left gen_part content ([], [], []) in
      (a, inl (content, u), app lines [logCompletion (Some u) Generating a (join ", " textParts)])
  end.

(** *** [wrapStream] *)

Record stream_acc := {
  fullText : string;
  toolNames : list string;
  toolInputs : list (string * string);
  toolCallIds : list (string * string);
  loggedToolCalls : list string
}.

Definition init_acc : stream_acc :=
  {| fullText := ""; toolNames := []; toolInputs := []; toolCallIds := []; loggedToolCalls := [] |}.

Definition mk (ft : string) (names : list string) (inputs ids : list (string * string))
    (logged : list string) : stream_acc :=
  {| fullText := ft; toolNames := names; toolInputs := inputs; toolCallIds := ids;
     loggedToolCalls := logged |}.

(** The [if / else if] chain before [controller.enqueue(chunk)]. *)
Definition observe (acc : stream_acc) (ch : chunk) : stream_acc * list logline :=
  let '(ft, names, inputs, ids, logged) :=
    (fullText acc, toolNames acc, toolInputs acc, toolCallIds acc, loggedToolCalls acc) in
  match ch with
  | TextDelta d => (mk (ft ++ d) names inputs ids logged, [])
  | ToolCall toolCallId toolName args input =>
      let names' := set_add toolName names in
      let ids' := if truthy_str toolCallId then map_set toolCallId toolName ids else ids in
      let callKey := if truthy_str toolCallId then toolName ++ "-" ++ toolCallId
                     else toolName ++ "-default" in
      if set_has callKey logged then (mk ft names' inputs ids' logged, [])
      else (mk ft names' inputs ids' (set_add callKey logged),
            [ToolCallLine toolName (tool_call_args args input)])
  | ToolInputStart id toolName =>
      (mk ft (set_add toolName names) (map_set id "" inputs) (map_set id toolName ids) logged, [])
  | ToolInputDelta id d =>
      let currentInput := match map_get id inputs with Some i => i | None => "" end in
      (mk ft names (map_set id (currentInput ++ d) inputs) ids logged, [])
  | ToolInputEnd id =>
      match map_get id ids with
      | Some toolName =>
          if truthy_str toolName then
            let callKey := toolName ++ "-" ++ id in
            let '(logged', lines) :=
              if set_has callKey logged then (logged, [])
              else (set_add callKey logged,
                    [ToolCallLine toolName
                       (match map_get id inputs with
                        | Some i => if truthy_str i then i else ""
                        | None => "" end)]) in
            (mk ft names (map_delete id inputs) ids logged', lines)
          else (acc, [])
      | None => (acc, [])
      end
  | ToolResult toolCallId _ result =>
      let toolName := match map_get toolCallId ids with Some n => n | None => "unknown" end in
      (acc, [ToolResultLine toolName (format_result result)])
  | _ => (acc, [])
  end.

(** [transform(chunk, controller)]: decrements [activeCalls] on [finish] and
    then clears the three maps, but not [toolNames]. The [catch] is not
    reachable in this model. *)
Definition transform (activeCalls : Z) (acc : stream_acc) (ch : chunk)
    : Z * stream_acc * list chunk * list logline :=
  let '(acc1, lines) := observe acc ch in
  let enqueued := [ch] in
  match ch with
  | Finish u _ =>
      let a := (activeCalls - 1)%Z in
      let logText := compose_log_text (fullText acc1) (tool_log (toolNames acc1)) in
      (a, mk (fullText acc1) (toolNames acc1) [] [] [], enqueued,
       app lines [logCompletion (Some u) Streaming a logText])
  | _ => (activeCalls, acc1, enqueued, lines)
  end.

(** [flush()]: runs once when the source stream closes; it clears the maps
    and leaves the counter alone. *)
Definition flush (acc : stream_acc) : stream_acc := mk (fullText acc) (toolNames acc) [] [] [].

Fixpoint pipe (activeCalls : Z) (acc : stream_acc) (chunks : list chunk)
    : Z * stream_acc * list chunk * list logline :=
  match chunks with
  | [] => (activeCalls, acc, [], [])
  | ch :: rest =>
      let '(a1, acc1, out1, lines1) := transform activeCalls acc ch in
      let '(a2, acc2, out2, lines2) := pipe a1 acc1 rest in
      (a2, acc2, app out1 out2, app lines1 lines2)
  end.

Definition stream_begin (params : option call_options) (activeCalls : Z) : Z * logline :=
  let promptSuffix := formatPromptSuffix (getPromptPreview params) in
  let a := (activeCalls + 1)%Z in
  (a, StartLine Streaming promptSuffix a).

Definition stream_open (activeCalls : Z) (o : stream_outcome) : Z :=
  match o with
  | StreamThrow _ => (activeCalls - 1)%Z
  | StreamOk _ | StreamAbort _ _ => activeCalls
  end.

(** Steps of a call on the counter: one per chunk, and [flush], which leaves
    it alone, when the source stream closes ([closes = true]). *)
Fixpoint chunk_steps (closes : bool) (acc : stream_acc) (chunks : list chunk)
    : list (Z -> Z) :=
  match chunks with
  | [] => if closes then [fun a => a] else []
  | ch :: rest =>
      (fun a => let '(a', _, _, _) := transform a acc ch in a') ::
      chunk_steps closes (let '(_, acc', _, _) := transform 0%Z acc ch in acc') rest
  end.

Definition thread (c : call) : list (Z -> Z) :=
  match c with
  | GenerateCall p o =>
      [fun a => fst (gen_begin p a); fun a => let '(a', _, _) := gen_end a o in a']
  | StreamCall p o =>
      (fun a => fst (stream_begin p a)) :: (fun a => stream_open a o) ::
      match o with
      | StreamThrow _ => []
      | StreamOk chunks => chunk_steps true init_acc chunks
      | StreamAbort chunks _ => chunk_steps false init_acc chunks
      end
  end.

End Part006.

(** * Statements about the chunk sequences of the claims *)
Module Shapes.
Import Common.
Open Scope string_scope.

(** Whitespace-only text (the empty string included). *)
Definition blank (s : string) : bool := forallb is_ws (list_ascii_of_string s).

Definition part_has_text (p : part) : bool :=
  match p with PText t => negb (blank t) | PNonText => false end.

Definition message_has_text (m : message) : bool :=
  match m with
  | MSystem c => negb (blank c)
  | MOther (ContentParts ps) => existsb part_has_text ps
  | MOther ContentNotArray => false
  end.

Definition prompt_has_text (msgs : list message) : bool := existsb message_has_text msgs.

(** The tool names held by the locals of a [model-logging] stream all
    satisfy [Q]: the names recorded by id, and the name before the '-' of
    every logged key. *)
Definition logging_names_ok (Q : string -> Prop) (acc : Logging.stream_acc) : Prop :=
  (forall id nm, map_get id (Logging.toolCallIds acc) = Some nm -> Q nm) /\
  (forall k, In k (Logging.loggedToolCalls acc) ->
     exists nm x, k = nm ++ String "-"%char x /\ Q nm).

Definition chunk_text (ch : chunk) : string :=
  match ch with TextDelta d => d | _ => "" end.

Definition chunk_tool_names (ch : chunk) : list string :=
  match ch with ToolCall _ name _ _ => [name] | _ => [] end.

(** The key under which [model-logging] records a [tool-call] chunk. *)
Definition chunk_tool_keys (ch : chunk) : list string :=
  match ch with
  | ToolCall id name _ _ =>
      [if truthy_str id then name ++ "-" ++ id else name ++ "-default"]
  | _ => []
  end.

Fixpoint streamed_text (chs : list chunk) : string :=
  match chs with
  | [] => ""
  | ch :: rest => chunk_text ch ++ streamed_text rest
  end.

Definition tool_call_names (chs : list chunk) : list string := flat_map chunk_tool_names chs.

Definition tool_call_keys (chs : list chunk) : list string := flat_map chunk_tool_keys chs.

(** The distinct elements of a list, in order of first appearance. *)
Definition dedup (l : list string) : list string := fold_left (fun s x => set_add x s) l [].

Definition has_dash (s : string) : bool := existsb (Ascii.eqb "-") (list_ascii_of_string s).

(** Completion-line fields. *)
Definition line_tokens (l : logline) : option token_info :=
  match l with CompleteLine _ t _ _ _ => Some t | _ => None end.

Definition line_result_suffix (l : logline) : option string :=
  match l with CompleteLine _ _ _ _ s => Some s | _ => None end.

(** Steps that each add a constant to the counter, [d] in total. *)
Inductive translations : list (Z -> Z) -> Z -> Prop :=
| tr_nil : translations [] 0%Z
| tr_cons (f : Z -> Z) (fs : list (Z -> Z)) (d1 d2 : Z) :
    (forall a, f a = (a + d1)%Z) -> translations fs d2 -> translations (f :: fs) (d1 + d2)%Z.

Definition sumZ (l : list Z) : Z := fold_right Z.add 0%Z l.

(** Normalization of one prompt text by [appendText]. *)
Definition sanitize (t : string) : string := js_trim (js_replace_ws t).

(** Appending a normalized text to a space-separated list of texts; empty
    texts are skipped. *)
Definition join_step (p s : string) : string :=
  if truthy_str s then (if truthy_str p then p ++ " " ++ s else s) else p.

Definition part_texts (parts : list part) : list string :=
  flat_map (fun p => match p with PText t => [t] | PNonText => [] end) parts.

(** The texts the previewer reads from one message: the content of a system
    message, the text parts of an array content. *)
Definition message_texts (m : message) : list string :=
  match m with
  | MSystem c => [c]
  | MOther (ContentParts parts) => part_texts parts
  | MOther ContentNotArray => []
  end.

(** All prompt texts, normalized and joined by single spaces. *)
Definition prompt_join (msgs : list message) : string :=
  fold_left join_step (map sanitize (flat_map message_texts msgs)) "".

Definition is_finish (ch : chunk) : bool :=
  match ch with Finish _ _ => true | _ => false end.

Definition count_finish (chs : list chunk) : nat := length (filter is_finish chs).

(** What a call leaves on the [model-progress] counter once all its steps
    ran: a stream adds one and removes one per [finish] chunk. *)
Definition progress_leftover (c : call) : Z :=
  match c with
  | StreamCall _ (StreamOk chs) | StreamCall _ (StreamAbort chs _) =>
      (1 - Z.of_nat (count_finish chs))%Z
  | _ => 0%Z
  end.

(** What a call leaves on the [model-logging] counter once all its steps ran:
    a stream that opened and was then aborted keeps the one it added, since
    [flush] does not run. *)
Definition logging_leftover (c : call) : Z :=
  match c with
  | StreamCall _ (StreamAbort _ _) => 1%Z
  | _ => 0%Z
  end.

(** Entries of the completion text of a generate call, before joining. *)
Definition content_label (p : content_part) : list string :=
  match p with
  | CText t => [t]
  | CToolCall _ name _ _ => ["tool:" ++ name]
  | _ => []
  end.

Definition reasoning_deltas (chs : list chunk) : string :=
  fold_right (fun ch s => match ch with ReasoningDelta d => d ++ s | _ => s end) "" chs.

(** Summary of a reasoning text, as in the [reasoning-end] branch. *)
Definition reasoning_summary (r : string) : string :=
  let preview := js_replace_ws (js_trim r) in
  if Nat.ltb PREVIEW_LIMIT (String.length preview)
  then substring 0 PREVIEW_LIMIT preview ++ "..." else preview.

(** Tool names a stream announces, by [tool-call] or [tool-input-start]. *)
Definition chunk_started_names (ch : chunk) : list string :=
  match ch with
  | ToolCall _ name _ _ | ToolInputStart _ name => [name]
  | _ => []
  end.

Definition started_tool_names (chs : list chunk) : list string :=
  flat_map chunk_started_names chs.

(** The previewer state [(preview, truncated)] after reading texts whose
    normalized join is [F]. *)
Definition preview_inv (F : string) (st : string * bool) : Prop :=
  fst st = substring 0 40 F /\
  (snd st = false -> fst st = F) /\
  (snd st = true -> String.length (fst st) = 40).

Definition concat_all (ds : list string) : string := fold_right String.append "" ds.

End Shapes.

(** * Inputs of the concrete statements *)
Module Inputs.
Import Common.
Open Scope string_scope.

Definition usage_no_output : usage :=
  {| inputTokens := None; outputTokens := None; totalTokens := Some 7%Z |}.

Definition usage_10_2 : usage :=
  {| inputTokens := Some 10%Z; outputTokens := Some 2%Z; totalTokens := None |}.

Definition hello_stream : list chunk :=
  [TextDelta "Hello "; TextDelta "world"; Finish usage_10_2 "stop"].

Definition prompt_no_text : list message :=
  [MSystem ""; MOther (ContentParts [PNonText; PText "  "]); MOther ContentNotArray].

(** A text whose normalized form is longer than 40 characters and starts
    with a double quote. *)
Definition quoted_text : string :=
  dq_s ++ "The quick brown fox jumps over the lazy dog, twice".

(** A streaming call whose stream delivers a tool call and closes without a
    [finish] chunk. *)
Definition unfinished_stream : call :=
  StreamCall None (StreamOk [ToolCall "call_1" "search" None None]).

(** Two tool calls with long names before [finish]. *)
Definition two_long_tools : list chunk :=
  [ToolCall "call_1" "search_documents" None None;
   ToolCall "call_2" "summarize_results" None None;
   ToolCall "call_1" "search_documents" None None;
   Finish usage_10_2 "tool-calls"].

(** Two tool calls whose names contain '-' before [finish]. *)
Definition hyphenated_tools : list chunk :=
  [ToolCall "call_1" "get-weather" None None;
   ToolCall "call_2" "get-time" None None;
   Finish usage_10_2 "tool-calls"].

(** Two tool-call ids, one repeated, before [finish]. *)
(** The same calls as a provider that streams tool inputs sends them. *)
Definition v2_tools_prefix : list chunk :=
  [ToolInputStart "call_1" "search"; ToolInputDelta "call_1" "{q"; ToolInputEnd "call_1";
   ToolCall "call_1" "search" None None; TextDelta "Looking";
   ToolInputStart "call_2" "fetch"; ToolInputEnd "call_2";
   ToolCall "call_2" "fetch" None None; ToolCall "call_1" "search" None None].

End Inputs.

(** * Proofs *)

Import Common Inputs.
Open Scope string_scope.

Lemma logging_transform_out (a : Z) (acc : Logging.stream_acc) (ch : chunk) :
  snd (fst (Logging.transform a acc ch)) = [ch].
Proof.
  unfold Logging.transform. destruct (Logging.observe acc ch) as [acc1 lines].
  destruct ch; reflexivity.
Qed.

Lemma progress_transform_out (a : Z) (acc : Progress.stream_acc) (ch : chunk) :
  snd (fst (Progress.transform a acc ch)) = [ch].
Proof. unfold Progress.transform. destruct ch; reflexivity. Qed.

Lemma logging_pipe_out (a : Z) (chunks : list chunk) :
  forall acc, snd (fst (Logging.pipe a acc chunks)) = chunks.
Proof.
  induction chunks as [|ch rest IH]; intro acc; [reflexivity|].
  simpl. pose proof (logging_transform_out a acc ch) as Hout.
  destruct (Logging.transform a acc ch) as [[acc1 out1] lines1]. simpl in Hout. subst out1.
  specialize (IH acc1).
  destruct (Logging.pipe a acc1 rest) as [[acc2 out2] lines2]. simpl in *. now subst.
Qed.

Lemma progress_pipe_out (chunks : list chunk) :
  forall a acc, snd (fst (Progress.pipe a acc chunks)) = chunks.
Proof.
  induction chunks as [|ch rest IH]; intros a acc; [reflexivity|].
  simpl. pose proof (progress_transform_out a acc ch) as Hout.
  destruct (Progress.transform a acc ch) as [[[a1 acc1] out1] lines1]. simpl in Hout. subst out1.
  specialize (IH a1 acc1).
  destruct (Progress.pipe a1 acc1 rest) as [[[a2 acc2] out2] lines2]. simpl in *. now subst.
Qed.

(** C2: every chunk is forwarded unmodified, in order, exactly once, by both
    wrappers; each single [transform] call enqueues exactly its chunk. *)
Theorem stream_forwards_chunks_unmodified :
  (forall (a : Z) (chunks : list chunk), Logging.stream_output a chunks = chunks) /\
  (forall (a : Z) (chunks : list chunk), Progress.stream_output a chunks = chunks) /\
  (forall a acc ch, snd (fst (Logging.transform a acc ch)) = [ch]) /\
  (forall a acc ch, snd (fst (Progress.transform a acc ch)) = [ch]).
Proof.
  split; [|split; [|split]].
  - intros a chunks. unfold Logging.stream_output.
    pose proof (logging_pipe_out a chunks Logging.init_acc) as H.
    destruct (Logging.pipe a Logging.init_acc chunks) as [[x out] y]. exact H.
  - intros a chunks. unfold Progress.stream_output.
    pose proof (progress_pipe_out chunks a Progress.init_acc) as H.
    destruct (Progress.pipe a Progress.init_acc chunks) as [[[x y] out] z]. exact H.
  - exact logging_transform_out.
  - exact progress_transform_out.
Qed.

(** C3: when [doGenerate] throws, both wrappers take the counter back to its
    value before the call (one increment, one decrement), return the thrown
    value itself as their own thrown value, and write no completion line. *)
Theorem generate_throw_decrements_and_rethrows
    (params : option call_options) (a : Z) (error : value) :
  Logging.gen_end (a + 1)%Z (GenThrow error) = (a, inr error, []) /\
  Logging.wrapGenerate params a (GenThrow error) =
    (a, inr error, [StartLine Generating (formatPromptSuffix (getPromptPreview params)) (a + 1)%Z]) /\
  Progress.gen_end (a + 1)%Z (GenThrow error) = (a, inr error, []) /\
  Progress.wrapGenerate params a (GenThrow error) =
    (a, inr error, [StartLine Generating (formatPromptSuffix (getPromptPreview params)) (a + 1)%Z]).
Proof.
  assert (E : (a + 1 - 1)%Z = a) by lia.
  unfold Logging.wrapGenerate, Logging.gen_begin, Logging.gen_end,
         Progress.wrapGenerate, Progress.gen_begin, Progress.gen_end.
  simpl. rewrite E. repeat split.
Qed.

(** C10: when a tool-call part has both [args] and [input], the argument
    string is the one of [args] alone; it is empty when [args] is falsy.
    The same holds for the inline extraction of [part_006]. *)
Theorem tool_arguments_prefer_args (argsv inputv : value) :
  Logging.getToolArguments (Some argsv) (Some inputv) = Logging.getToolArguments (Some argsv) None /\
  Part006.tool_call_args (Some argsv) (Some inputv) = Part006.tool_call_args (Some argsv) None /\
  (falsy argsv = true ->
     Logging.getToolArguments (Some argsv) (Some inputv) = "" /\
     Part006.tool_call_args (Some argsv) (Some inputv) = "") /\
  (forall toolCallId toolName acc,
     set_has (if truthy_str toolCallId then toolName ++ "-" ++ toolCallId
                      else toolName ++ "-default") (Logging.loggedToolCalls acc) = false ->
     snd (Logging.observe acc (ToolCall toolCallId toolName (Some argsv) (Some inputv))) =
       [ToolCallLine toolName (Logging.getToolArguments (Some argsv) None)]).
Proof.
  split; [reflexivity|]. split; [reflexivity|]. split.
  - intro H. unfold Logging.getToolArguments, Part006.tool_call_args. simpl.
    rewrite H. split; reflexivity.
  - intros id name acc H. unfold Logging.observe. cbv zeta. rewrite H. reflexivity.
Qed.

Lemma map_get_set_same (k v : string) (m : list (string * string)) :
  map_get k (map_set k v m) = Some v.
Proof.
  induction m as [|[k' v'] r IH]; simpl.
  - rewrite String.eqb_refl. reflexivity.
  - destruct (String.eqb k k') eqn:E; simpl.
    + rewrite String.eqb_refl. reflexivity.
    + rewrite E. exact IH.
Qed.

(** C9: the line of a [tool-result] chunk names the tool found under the
    chunk's [toolCallId] in the per-call map ("unknown" when absent), which a
    [tool-call] chunk with that id fills; the payload is used as is when it is
    a string, serialized with [JSON.stringify] otherwise, and cut to 100
    characters followed by "..." when longer. *)
Theorem tool_result_line_lookup_and_truncation
    (a : Z) (acc : Logging.stream_acc) (toolCallId toolName : string) (result : value) :
  snd (Logging.transform a acc (ToolResult toolCallId toolName result)) =
    [ToolResultLine (match map_get toolCallId (Logging.toolCallIds acc) with
                     | Some n => n | None => "unknown" end)
                    (Logging.formatToolResult result)] /\
  (forall s, Logging.formatToolResult (VStr s) =
     if Nat.ltb 100 (String.length s) then substring 0 100 s ++ "..." else s) /\
  (forall v s, (forall s', v <> VStr s') -> JSON_stringify v = Some s ->
     Logging.formatToolResult v =
       if Nat.ltb 100 (String.length s) then substring 0 100 s ++ "..." else s) /\
  (forall acc' id name args input, truthy_str id = true ->
     map_get id (Logging.toolCallIds (fst (Logging.observe acc' (ToolCall id name args input))))
       = Some name).
Proof.
  split; [reflexivity|]. split; [reflexivity|]. split.
  - intros v s Hns Hs. unfold Logging.formatToolResult.
    destruct v; try (rewrite Hs; reflexivity).
    exfalso. exact (Hns s0 eq_refl).
  - intros acc' id name args input Hid. unfold Logging.observe. cbv zeta. rewrite Hid.
    destruct (set_has _ _); simpl; apply map_get_set_same.
Qed.




(** C5 (counterexample): with no output count in the usage record,
    [model-progress] reports the total count (7), not 0, and prints no input
    count. *)
Lemma progress_tokens_fall_back_to_total :
  Shapes.line_tokens (Progress.logCompletion (Some usage_no_output) Generating 0 "") =
    Some (TokensOut 7) /\
  Shapes.line_tokens (Progress.logCompletion (Some usage_no_output) Generating 0 "") <>
    Some (TokensOut 0).
Proof. split; [reflexivity|]. discriminate. Qed.

(** C5 (amended): [model-logging] reports [inputTokens ?? 0] and
    [outputTokens ?? 0] (the input count only when it is positive);
    [model-progress] reports only [outputTokens ?? totalTokens ?? 0]. For the
    stream [Hello ], [world], [finish {input 10, output 2}] both report 2 output
    tokens and the preview "Hello world". *)
Theorem completion_token_figures :
  (forall u m a text fr,
     let i := match u with Some r => match inputTokens r with Some n => n | None => 0%Z end
                          | None => 0%Z end in
     let o := match u with Some r => match outputTokens r with Some n => n | None => 0%Z end
                          | None => 0%Z end in
     Shapes.line_tokens (Logging.logCompletion u m a text fr) =
       Some (if Z.ltb 0 i then TokensInOut i o else TokensOut o)) /\
  (forall u m a text,
     Shapes.line_tokens (Progress.logCompletion u m a text) =
       Some (TokensOut (match u with
                        | Some r => match outputTokens r with
                                    | Some n => n
                                    | None => match totalTokens r with Some n => n | None => 0%Z end
                                    end
                        | None => 0%Z end))) /\
  (forall a,
     snd (Logging.pipe a Logging.init_acc hello_stream) =
       [CompleteLine Streaming (TokensInOut 10 2) (a - 1)%Z " | reason: stop"
          (" | result: " ++ dq_s ++ "Hello world" ++ dq_s)]) /\
  (forall a,
     snd (Progress.pipe a Progress.init_acc hello_stream) =
       [CompleteLine Streaming (TokensOut 2) (a - 1)%Z ""
          (" | result: " ++ dq_s ++ "Hello world" ++ dq_s)]).
Proof.
  split; [|split; [|split]].
  - intros u m a text fr. reflexivity.
  - intros u m a text. reflexivity.
  - intro a. vm_compute. reflexivity.
  - intro a. vm_compute. reflexivity.
Qed.

(** C8: the previewer keeps no state between invocations: in any sequence of
    invocations, the one on [params] returns [getPromptPreview params]
    whatever ran before it; so two runs on one input agree. *)
Theorem prompt_preview_deterministic (params : option call_options) :
  (forall before after : list (option call_options),
     nth_error (run_previewer_session (before ++ params :: after)) (length before) =
       Some (getPromptPreview params)) /\
  (exists pv, run_previewer_session [params; params] = [pv; pv]).
Proof.
  split.
  - intros before after. induction before as [|p rest IH]; simpl; [reflexivity|exact IH].
  - exists (getPromptPreview params). reflexivity.
Qed.

Lemma collapse_ws_blank (l : list ascii) :
  forallb is_ws l = true ->
  collapse_ws true l = [] /\ (collapse_ws false l = [] \/ collapse_ws false l = [" "%char]).
Proof.
  induction l as [|c r IH]; simpl; intro H; [auto|].
  apply andb_prop in H as [Hc Hr]. rewrite Hc. destruct (IH Hr) as [IHt _].
  rewrite IHt. auto.
Qed.

Lemma sanitize_blank (s : string) :
  Shapes.blank s = true -> js_trim (js_replace_ws s) = "".
Proof.
  unfold Shapes.blank, js_trim, js_replace_ws. intro H.
  rewrite list_ascii_of_string_of_list_ascii.
  destruct (collapse_ws_blank _ H) as [_ [E | E]]; rewrite E; reflexivity.
Qed.

Lemma appendText_blank (t : string) (b : bool) :
  Shapes.blank t = true -> appendText t ("", b) = ("", b).
Proof.
  intro H. unfold appendText. simpl. rewrite (sanitize_blank t H). reflexivity.
Qed.

Lemma preview_parts_blank (parts : list part) (b : bool) :
  existsb Shapes.part_has_text parts = false -> preview_parts parts ("", b) = ("", b).
Proof.
  induction parts as [|p rest IH]; cbn -[appendText]; intro H; [reflexivity|].
  apply orb_false_iff in H as [Hp Hr].
  destruct p as [t|]; cbn -[appendText] in Hp |- *.
  - apply negb_false_iff in Hp. rewrite (appendText_blank t b Hp). simpl. exact (IH Hr).
  - exact (IH Hr).
Qed.

Lemma preview_messages_blank (msgs : list message) (b : bool) :
  Shapes.prompt_has_text msgs = false -> preview_messages msgs ("", b) = ("", b).
Proof.
  unfold Shapes.prompt_has_text.
  induction msgs as [|m rest IH]; cbn -[appendText preview_parts]; intro H; [reflexivity|].
  apply orb_false_iff in H as [Hm Hr].
  destruct m as [c|[parts|]]; cbn -[appendText preview_parts] in Hm |- *.
  - apply negb_false_iff in Hm. rewrite (appendText_blank c b Hm). exact (IH Hr).
  - rewrite (preview_parts_blank parts b Hm). exact (IH Hr).
  - exact (IH Hr).
Qed.

(** C7: a prompt without text (no message, only non-text parts, or text that
    is empty or whitespace) has no preview, and the start lines of both
    wrappers carry an empty prompt suffix. *)
Theorem prompt_without_text_has_no_preview (msgs : list message) :
  Shapes.prompt_has_text msgs = false ->
  let params := Some {| prompt := PromptArray msgs |} in
  getPromptPreview params = None /\
  formatPromptSuffix (getPromptPreview params) = "" /\
  (forall a, Logging.gen_begin params a = ((a + 1)%Z, StartLine Generating "" (a + 1)%Z)) /\
  (forall a, Logging.stream_begin params a = ((a + 1)%Z, StartLine Streaming "" (a + 1)%Z)) /\
  (forall a, Progress.gen_begin params a = ((a + 1)%Z, StartLine Generating "" (a + 1)%Z)) /\
  (forall a, Progress.stream_begin params a = ((a + 1)%Z, StartLine Streaming "" (a + 1)%Z)).
Proof.
  intros H params.
  assert (N : getPromptPreview params = None).
  { unfold params, getPromptPreview. simpl. rewrite (preview_messages_blank msgs false H).
    reflexivity. }
  unfold Logging.gen_begin, Logging.stream_begin, Progress.gen_begin, Progress.stream_begin.
  rewrite N. repeat split.
Qed.


Lemma prompt_without_text_has_no_preview_witness :
  Shapes.prompt_has_text prompt_no_text = false /\
  getPromptPreview (Some {| prompt := PromptArray prompt_no_text |}) = None.
Proof.
  split; [reflexivity|].
  apply (prompt_without_text_has_no_preview prompt_no_text). reflexivity.
Defined.

(** ** Counter bookkeeping under interleaving *)

Import Shapes.

Lemma Forall2_nth_error {A B} (P : A -> B -> Prop) (xs : list A) (ys : list B) :
  Forall2 P xs ys -> forall i x, nth_error xs i = Some x ->
  exists y, nth_error ys i = Some y /\ P x y.
Proof.
  induction 1 as [|x0 y0 xs' ys' Hxy Hrest IH]; intros i x Hi.
  - destruct i; discriminate.
  - destruct i as [|i]; simpl in Hi.
    + injection Hi as <-. exists y0. split; [reflexivity|exact Hxy].
    + exact (IH i x Hi).
Qed.

Lemma Forall2_set_nth {A B} (P : A -> B -> Prop) (xs : list A) (ys : list B) :
  Forall2 P xs ys -> forall i x y, P x y -> Forall2 P (set_nth i x xs) (set_nth i y ys).
Proof.
  induction 1 as [|x0 y0 xs' ys' Hxy Hrest IH]; intros i x y Hp; [destruct i; constructor|].
  destruct i as [|i]; simpl; constructor; auto.
Qed.

Lemma sumZ_set_nth (ys : list Z) :
  forall i y0 y, nth_error ys i = Some y0 -> sumZ (set_nth i y ys) = (sumZ ys - y0 + y)%Z.
Proof.
  induction ys as [|z zs IH]; intros i y0 y H; [destruct i; discriminate|].
  destruct i as [|i]; simpl in H |- *.
  - injection H as <-. lia.
  - rewrite (IH i y0 y H). lia.
Qed.

(** Each scheduler step keeps [counter + remaining net effect] unchanged. *)
Lemma run_schedule_net (sched : list nat) :
  forall threads ds a, Forall2 translations threads ds ->
  exists ds', Forall2 translations (fst (run_schedule sched threads a)) ds' /\
    (snd (run_schedule sched threads a) + sumZ ds' = a + sumZ ds)%Z.
Proof.
  induction sched as [|i rest IH]; intros threads ds a Hf.
  - exists ds. split; [exact Hf|reflexivity].
  - simpl. destruct (nth_error threads i) as [[|f fs]|] eqn:E.
    + exact (IH threads ds a Hf).
    + destruct (Forall2_nth_error _ _ _ Hf i _ E) as [d [Hd Htr]].
      inversion Htr as [|f' fs' d1 d2 Hfa Hfs]; subst.
      assert (Hf' : Forall2 translations (set_nth i fs threads) (set_nth i d2 ds)).
      { apply Forall2_set_nth; assumption. }
      destruct (IH _ _ (f a) Hf') as [ds' [Hds' Heq]].
      exists ds'. split; [exact Hds'|].
      rewrite Heq, Hfa, (sumZ_set_nth ds i _ d2 Hd). lia.
    + exact (IH threads ds a Hf).
Qed.

Lemma completed_net_zero (threads : list (list (Z -> Z))) (ds : list Z) :
  Forall2 translations threads ds -> all_completed threads -> sumZ ds = 0%Z.
Proof.
  induction 1 as [|t d ts ds' Htd Hrest IH]; intro Hc; [reflexivity|].
  inversion Hc as [|t' ts' Ht Hts]; subst.
  inversion Htd; subst. simpl. rewrite (IH Hts). reflexivity.
Qed.

Lemma logging_chunk_steps_net (closes : bool) (chunks : list chunk) :
  forall acc, translations (Logging.chunk_steps closes acc chunks) (if closes then -1 else 0)%Z.
Proof.
  induction chunks as [|ch rest IH]; intro acc; cbn [Logging.chunk_steps].
  - destruct closes.
    + change (-1)%Z with (-1 + 0)%Z. constructor; [|constructor].
      intro a. unfold Logging.flush. destruct (negb (Logging.streamFinished acc)); simpl; lia.
    + constructor.
  - change (if closes then -1 else 0)%Z with (0 + (if closes then -1 else 0))%Z.
    constructor; [intro a; lia|apply IH].
Qed.

Lemma logging_thread_net (c : call) : translations (Logging.thread c) (Shapes.logging_leftover c).
Proof.
  destruct c as [p o|p o]; cbn [Logging.thread Shapes.logging_leftover].
  - change 0%Z with (1 + (-1 + 0))%Z.
    constructor; [intro a; reflexivity|]. constructor; [|constructor].
    intro a. destruct o as [content u|e]; unfold Logging.gen_end.
    + destruct (fold_left Logging.gen_part content ([], [], [])) as [[tp m] ls]. simpl. lia.
    + simpl. lia.
  - destruct o as [e|chunks|chunks e].
    + change 0%Z with (1 + (-1 + 0))%Z.
      constructor; [intro a; reflexivity|]. constructor; [|constructor].
      intro a. simpl. lia.
    + change 0%Z with (1 + (0 + -1))%Z.
      constructor; [intro a; reflexivity|]. constructor; [intro a; simpl; lia|].
      apply (logging_chunk_steps_net true).
    + change 1%Z with (1 + (0 + 0))%Z.
      constructor; [intro a; reflexivity|]. constructor; [intro a; simpl; lia|].
      apply (logging_chunk_steps_net false).
Qed.

(** With [model-logging], once every step of every call has run, in any
    interleaving, the counter equals the number of streams that opened and
    were then aborted (the source stream errored or the reader cancelled), as
    [flush] does not run for them; it is back at 0 when every opened stream
    closed. *)
Theorem logging_counter_after_all_steps (calls : list call) (sched : list nat) :
  all_completed (fst (run_schedule sched (map Logging.thread calls) 0%Z)) ->
  snd (run_schedule sched (map Logging.thread calls) 0%Z) =
    Shapes.sumZ (map Shapes.logging_leftover calls).
Proof.
  intro Hc.
  assert (Hf : forall cs, Forall2 translations (map Logging.thread cs)
                                               (map Shapes.logging_leftover cs)).
  { induction cs as [|c cs IH]; simpl; [constructor|constructor; [apply logging_thread_net|exact IH]]. }
  destruct (run_schedule_net sched _ _ 0%Z (Hf calls)) as [ds' [Hds' Heq]].
  rewrite (completed_net_zero _ _ Hds' Hc) in Heq. lia.
Qed.

Lemma logging_counter_after_all_steps_witness :
  all_completed (fst (run_schedule [0; 1; 2; 1; 0; 2; 0; 2; 0] (map Logging.thread
    [unfinished_stream; GenerateCall None (GenThrow VNull);
     StreamCall None (StreamAbort [TextDelta "Hi"] VNull)]) 0%Z)) /\
  snd (run_schedule [0; 1; 2; 1; 0; 2; 0; 2; 0] (map Logging.thread
    [unfinished_stream; GenerateCall None (GenThrow VNull);
     StreamCall None (StreamAbort [TextDelta "Hi"] VNull)]) 0%Z) = 1%Z.
Proof.
  assert (H : all_completed (fst (run_schedule [0; 1; 2; 1; 0; 2; 0; 2; 0] (map Logging.thread
    [unfinished_stream; GenerateCall None (GenThrow VNull);
     StreamCall None (StreamAbort [TextDelta "Hi"] VNull)]) 0%Z))).
  { vm_compute. repeat constructor. }
  split; [exact H|]. exact (logging_counter_after_all_steps _ _ H).
Defined.

(** C1 (failing input): with [model-progress], a streaming call whose stream
    delivers a tool call and closes without [finish] leaves the counter at 1
    after all its steps ran; [model-logging] brings it back to 0 through
    [flush]. *)
Theorem progress_counter_not_released_without_finish :
  run_schedule [0; 0; 0] [Progress.thread unfinished_stream] 0%Z = ([[]], 1%Z) /\
  run_schedule [0; 0; 0; 0] [Logging.thread unfinished_stream] 0%Z = ([[]], 0%Z).
Proof. split; vm_compute; reflexivity. Qed.

(** ** Completion preview *)

Lemma escape_dq_no_quote (s : string) :
  existsb (Ascii.eqb dq) (list_ascii_of_string s) = false -> escape_dq s = s.
Proof.
  induction s as [|c r IH]; intro H; [reflexivity|].
  cbn [list_ascii_of_string existsb] in H. apply orb_false_iff in H as [Hc Hr].
  cbn [escape_dq]. rewrite Ascii.eqb_sym, Hc, (IH Hr). reflexivity.
Qed.

Lemma resultSuffix_long (text : string) :
  Nat.ltb PREVIEW_LIMIT (String.length (js_replace_ws (js_trim text))) = true ->
  resultSuffix_of text =
    " | result: " ++ dq_s ++
    escape_dq (substring 0 PREVIEW_LIMIT (js_replace_ws (js_trim text)) ++ "...") ++ dq_s.
Proof.
  intro H. unfold resultSuffix_of.
  destruct text as [|c r]; [vm_compute in H; discriminate|].
  simpl truthy_str. cbv zeta. rewrite H. reflexivity.
Qed.

Lemma logging_gen_end_ok (a : Z) (content : list content_part) (u : usage) :
  exists pre, snd (Logging.gen_end a (GenOk content u)) =
    app pre [Logging.logCompletion (Some u) Generating (a - 1)%Z (Logging.gen_text content) None].
Proof.
  unfold Logging.gen_end, Logging.gen_text.
  destruct (fold_left Logging.gen_part content ([], [], [])) as [[tp m] ls].
  exists ls. reflexivity.
Qed.

(** C6 (amended): when the normalized text is longer than 40 characters the
    quoted preview of the completion line is its first 40 characters followed
    by "...", with each double quote then escaped as a backslash and a quote;
    without a double quote in the excerpt it is exactly that excerpt. This
    holds for the generate path of both wrappers. *)
Theorem generate_preview_first_40_escaped (text : string) :
  Nat.ltb 40 (String.length (js_replace_ws (js_trim text))) = true ->
  let cut := substring 0 40 (js_replace_ws (js_trim text)) ++ "..." in
  (forall content u a, Logging.gen_text content = text ->
     exists pre tok,
       snd (Logging.gen_end a (GenOk content u)) =
         app pre [CompleteLine Generating tok (a - 1)%Z ""
                    (" | result: " ++ dq_s ++ escape_dq cut ++ dq_s)]) /\
  (forall content u a, Progress.gen_text content = text ->
     exists tok,
       snd (Progress.gen_end a (GenOk content u)) =
         [CompleteLine Generating tok (a - 1)%Z ""
            (" | result: " ++ dq_s ++ escape_dq cut ++ dq_s)]) /\
  (existsb (Ascii.eqb dq) (list_ascii_of_string cut) = false -> escape_dq cut = cut).
Proof.
  intros H cut. split; [|split].
  - intros content u a Ht. destruct (logging_gen_end_ok a content u) as [pre Hpre].
    rewrite Hpre, Ht. unfold Logging.logCompletion.
    rewrite (resultSuffix_long text H). eexists pre, _. reflexivity.
  - intros content u a Ht. unfold Progress.gen_end. rewrite Ht.
    unfold Progress.logCompletion. rewrite (resultSuffix_long text H).
    eexists. reflexivity.
  - apply escape_dq_no_quote.
Qed.

Lemma generate_preview_first_40_escaped_witness :
  Nat.ltb 40 (String.length (js_replace_ws (js_trim quoted_text))) = true /\
  exists tok,
    snd (Progress.gen_end 1%Z (GenOk [CText quoted_text] usage_10_2)) =
      [CompleteLine Generating tok 0%Z ""
         (" | result: " ++ dq_s ++
          escape_dq (substring 0 40 (js_replace_ws (js_trim quoted_text)) ++ "...") ++ dq_s)].
Proof.
  assert (H : Nat.ltb 40 (String.length (js_replace_ws (js_trim quoted_text))) = true)
    by (vm_compute; reflexivity).
  split; [exact H|].
  exact (proj1 (proj2 (generate_preview_first_40_escaped quoted_text H))
           [CText quoted_text] usage_10_2 1%Z eq_refl).
Defined.

(** C6 (counterexample): a result text starting with a double quote; the
    printed preview is not the plain 40-character excerpt plus "...", as the
    quote is escaped. *)
Lemma generate_preview_escapes_quote :
  let norm := js_replace_ws (js_trim quoted_text) in
  Nat.ltb 40 (String.length norm) = true /\
  map Shapes.line_result_suffix (snd (Logging.gen_end 1%Z (GenOk [CText quoted_text] usage_10_2)))
    <> [Some (" | result: " ++ dq_s ++ (substring 0 40 norm ++ "...") ++ dq_s)].
Proof. split; [vm_compute; reflexivity|]. vm_compute. discriminate. Qed.

(** ** Tool list of the completion preview *)

Lemma str_app_nil_r (s : string) : s ++ "" = s.
Proof. induction s as [|c r IH]; simpl; [reflexivity|rewrite IH; reflexivity]. Qed.

Lemma str_app_assoc (s1 s2 s3 : string) : (s1 ++ s2) ++ s3 = s1 ++ (s2 ++ s3).
Proof. induction s1 as [|c r IH]; simpl; [reflexivity|rewrite IH; reflexivity]. Qed.

Lemma set_has_In (x : string) (s : list string) : set_has x s = true <-> In x s.
Proof.
  unfold set_has. rewrite existsb_exists. split.
  - intros [y [Hy He]]. apply String.eqb_eq in He. subst. exact Hy.
  - intro H. exists x. split; [exact H|apply String.eqb_refl].
Qed.

Lemma set_add_In (x y : string) (s : list string) : In y (set_add x s) <-> In y s \/ y = x.
Proof.
  unfold set_add. destruct (set_has x s) eqn:E.
  - apply set_has_In in E. split; [auto|intros [H| ->]; auto].
  - rewrite in_app_iff. simpl. split.
    + intros [H|[H|H]]; [auto|auto|destruct H].
    + intros [H|H]; auto.
Qed.

Lemma set_add_NoDup (x : string) (s : list string) : NoDup s -> NoDup (set_add x s).
Proof.
  intro H. unfold set_add. destruct (set_has x s) eqn:E; [exact H|].
  apply (Permutation_NoDup (Permutation_cons_append s x)).
  constructor; [|exact H].
  intro Hin. apply set_has_In in Hin. congruence.
Qed.

Definition add_all (l s : list string) : list string := fold_left (fun s x => set_add x s) l s.

Lemma add_all_In (l : list string) : forall s y, In y (add_all l s) <-> In y s \/ In y l.
Proof.
  unfold add_all. induction l as [|x r IH]; intros s y; simpl.
  - tauto.
  - rewrite IH, set_add_In. split; intros H; intuition.
Qed.

Lemma add_all_NoDup (l : list string) : forall s, NoDup s -> NoDup (add_all l s).
Proof.
  unfold add_all. induction l as [|x r IH]; intros s H; simpl; [exact H|].
  apply IH, set_add_NoDup, H.
Qed.

Lemma fold_addf_map (f : string -> string) (ks : list string) :
  forall t, fold_left (fun s k => set_add (f k) s) ks t = add_all (map f ks) t.
Proof.
  unfold add_all. induction ks as [|k r IH]; intro t; simpl; [reflexivity|apply IH].
Qed.

Lemma split_dash_first_key (name x : string) :
  Shapes.has_dash name = false -> split_dash_first (name ++ String "-" x) = name.
Proof.
  induction name as [|c r IH]; intro H; [reflexivity|].
  unfold Shapes.has_dash in H. cbn [list_ascii_of_string existsb] in H.
  apply orb_false_iff in H as [Hc Hr].
  cbn [String.append split_dash_first]. rewrite Ascii.eqb_sym, Hc, (IH Hr). reflexivity.
Qed.

Lemma progress_transform_fields (a : Z) (acc : Progress.stream_acc) (ch : chunk) :
  let '(a1, acc1, _, _) := Progress.transform a acc ch in
  a1 = (a - (if Shapes.is_finish ch then 1 else 0))%Z /\
  Progress.fullText acc1 = Progress.fullText acc ++ Shapes.chunk_text ch /\
  Progress.toolNames acc1 = add_all (Shapes.chunk_started_names ch) (Progress.toolNames acc).
Proof.
  destruct ch; cbn; rewrite ?str_app_nil_r; repeat split; lia.
Qed.

Lemma progress_pipe_fields (pre : list chunk) :
  forall a acc,
  let '(a1, acc1, _, _) := Progress.pipe a acc pre in
  a1 = (a - Z.of_nat (Shapes.count_finish pre))%Z /\
  Progress.fullText acc1 = Progress.fullText acc ++ Shapes.streamed_text pre /\
  Progress.toolNames acc1 = add_all (Shapes.started_tool_names pre) (Progress.toolNames acc).
Proof.
  induction pre as [|ch rest IH]; intros a acc.
  - cbn. rewrite str_app_nil_r. repeat split; lia.
  - cbn [Progress.pipe]. pose proof (progress_transform_fields a acc ch) as H.
    destruct (Progress.transform a acc ch) as [[[a1 acc1] o1] l1].
    specialize (IH a1 acc1). destruct (Progress.pipe a1 acc1 rest) as [[[a2 acc2] o2] l2].
    destruct H as [Ha [Hf Ht]]. destruct IH as [Ia [If It]].
    split; [|split].
    + rewrite Ia, Ha. unfold Shapes.count_finish. cbn [filter].
      destruct (Shapes.is_finish ch); cbn [length]; lia.
    + rewrite If, Hf, str_app_assoc. reflexivity.
    + rewrite It, Ht. unfold Shapes.started_tool_names, add_all. cbn [flat_map].
      rewrite fold_left_app. reflexivity.
Qed.

Lemma progress_pipe_app_lines (l1 l2 : list chunk) :
  forall a acc,
  snd (Progress.pipe a acc (app l1 l2)) =
    let '(a1, acc1, _, ls1) := Progress.pipe a acc l1 in app ls1 (snd (Progress.pipe a1 acc1 l2)).
Proof.
  induction l1 as [|ch rest IH]; intros a acc; [reflexivity|].
  cbn [app Progress.pipe]. destruct (Progress.transform a acc ch) as [[[a1 acc1] o1] ls1].
  specialize (IH a1 acc1).
  destruct (Progress.pipe a1 acc1 (app rest l2)) as [[[aA accA] oA] lA].
  destruct (Progress.pipe a1 acc1 rest) as [[[aB accB] oB] lB].
  cbn [snd] in *. rewrite IH, app_assoc. reflexivity.
Qed.

Lemma progress_pipe_quiet (pre : list chunk) :
  forallb (fun ch => negb (Shapes.is_finish ch)) pre = true ->
  forall a acc, snd (Progress.pipe a acc pre) = [].
Proof.
  induction pre as [|ch rest IH]; intros Hf a acc; [reflexivity|].
  cbn [forallb] in Hf. apply andb_prop in Hf as [Hch Hr]. apply negb_true_iff in Hch.
  cbn [Progress.pipe].
  assert (Ht : exists a1 acc1, Progress.transform a acc ch = (a1, acc1, [ch], [])).
  { destruct ch; try discriminate; eexists; eexists; reflexivity. }
  destruct Ht as [a1 [acc1 ->]]. specialize (IH Hr a1 acc1).
  destruct (Progress.pipe a1 acc1 rest) as [[[a2 acc2] o2] l2].
  cbn [snd] in IH |- *. rewrite IH. reflexivity.
Qed.

Lemma logging_pipe_app (a : Z) (l1 l2 : list chunk) :
  forall acc,
  snd (Logging.pipe a acc (l1 ++ l2)) =
    app (snd (Logging.pipe a acc l1)) (snd (Logging.pipe a (fst (fst (Logging.pipe a acc l1))) l2)) /\
  fst (fst (Logging.pipe a acc (l1 ++ l2))) =
    fst (fst (Logging.pipe a (fst (fst (Logging.pipe a acc l1))) l2)).
Proof.
  induction l1 as [|ch rest IH]; intro acc; [split; reflexivity|].
  cbn [app Logging.pipe]. destruct (Logging.transform a acc ch) as [[acc1 out1] ls1].
  destruct (IH acc1) as [H1 H2].
  destruct (Logging.pipe a acc1 (rest ++ l2)) as [[accA outA] lsA].
  destruct (Logging.pipe a acc1 rest) as [[accB outB] lsB].
  cbn [fst snd] in *. rewrite H1, app_assoc. split; [reflexivity|exact H2].
Qed.

Lemma map_get_set_inv (k k' v x : string) (m : list (string * string)) :
  map_get k (map_set k' v m) = Some x -> x = v \/ map_get k m = Some x.
Proof.
  induction m as [|[k0 v0] r IH]; cbn [map_set map_get].
  - destruct (String.eqb k k'); intro H; [left; congruence|discriminate].
  - destruct (String.eqb k' k0) eqn:E0; cbn [map_get].
    + apply String.eqb_eq in E0. subst k0.
      destruct (String.eqb k k'); intro H; [left; congruence|right; exact H].
    + destruct (String.eqb k k0); intro H; [right; exact H|exact (IH H)].
Qed.

Lemma logging_observe_names (Q : string -> Prop) (acc : Logging.stream_acc) (ch : chunk) :
  Shapes.is_finish ch = false ->
  (forall n, In n (Shapes.chunk_started_names ch) -> Q n) ->
  Shapes.logging_names_ok Q acc ->
  Shapes.logging_names_ok Q (fst (Logging.observe acc ch)) /\
  Logging.fullText (fst (Logging.observe acc ch)) = Logging.fullText acc ++ Shapes.chunk_text ch /\
  (forall k, In k (Logging.loggedToolCalls acc) \/ In k (Shapes.chunk_tool_keys ch) ->
     In k (Logging.loggedToolCalls (fst (Logging.observe acc ch)))).
Proof.
  intros Hf HQ [Hids Hlog].
  destruct acc as [ft rt ti ids lg sf fr].
  cbn [Logging.toolCallIds Logging.loggedToolCalls Logging.fullText] in Hids, Hlog |- *.
  unfold Shapes.logging_names_ok.
  destruct ch; try discriminate Hf;
    cbn [Shapes.chunk_started_names Shapes.chunk_tool_keys Shapes.chunk_text] in HQ |- *;
    unfold Logging.observe; cbv zeta;
    cbn [fst Logging.with_maps Logging.toolCallIds Logging.loggedToolCalls Logging.fullText];
    rewrite ?str_app_nil_r.
  (* chunks that leave both maps as they are *)
  all: try (split; [split; assumption|split; [reflexivity|intros k [Hk|[]]; exact Hk]]).
  - (* tool-call *)
    assert (Hn : Q toolName) by (apply HQ; left; reflexivity).
    assert (Hi : forall id nm,
               map_get id (if truthy_str toolCallId then map_set toolCallId toolName ids else ids)
                 = Some nm -> Q nm).
    { intros id nm H. destruct (truthy_str toolCallId); [|exact (Hids _ _ H)].
      apply map_get_set_inv in H as [->|H]; [exact Hn|exact (Hids _ _ H)]. }
    assert (Hkey : exists x, (if truthy_str toolCallId then toolName ++ "-" ++ toolCallId
                              else toolName ++ "-default") = toolName ++ String "-"%char x).
    { destruct (truthy_str toolCallId); eexists; reflexivity. }
    destruct (set_has _ lg) eqn:Eh; cbn [fst Logging.with_maps Logging.toolCallIds
                                          Logging.loggedToolCalls Logging.fullText].
    + split; [split; assumption|split; [reflexivity|]].
      intros k [Hk|[<-|[]]]; [exact Hk|apply set_has_In, Eh].
    + split; [split; [exact Hi|]|split; [reflexivity|]].
      * intros k Hk. apply set_add_In in Hk as [Hk| ->]; [exact (Hlog _ Hk)|].
        destruct Hkey as [x Hx]. exists toolName, x. split; [exact Hx|exact Hn].
      * intros k [Hk|[<-|[]]]; apply set_add_In; [left; exact Hk|right; reflexivity].
  - (* tool-input-start *)
    split; [split; [|assumption]|split; [reflexivity|intros k [Hk|[]]; exact Hk]].
    intros id0 nm H. apply map_get_set_inv in H as [->|H];
      [apply HQ; left; reflexivity|exact (Hids _ _ H)].
  - (* tool-input-end *)
    destruct (map_get id ids) as [nm|] eqn:Eg;
      [|split; [split; assumption|split; [reflexivity|intros k [Hk|[]]; exact Hk]]].
    destruct (truthy_str nm);
      [|split; [split; assumption|split; [reflexivity|intros k [Hk|[]]; exact Hk]]].
    destruct (set_has (nm ++ "-" ++ id) lg) eqn:Eh;
      cbn [fst Logging.with_maps Logging.toolCallIds Logging.loggedToolCalls Logging.fullText].
    + split; [split; assumption|split; [reflexivity|intros k [Hk|[]]; exact Hk]].
    + split; [split; [exact Hids|]|split; [reflexivity|]].
      * intros k Hk. apply set_add_In in Hk as [Hk| ->]; [exact (Hlog _ Hk)|].
        exists nm, id. split; [reflexivity|exact (Hids _ _ Eg)].
      * intros k [Hk|[]]. apply set_add_In. left. exact Hk.
Qed.

Lemma logging_transform_not_finish (a : Z) (acc : Logging.stream_acc) (ch : chunk) :
  Shapes.is_finish ch = false ->
  fst (fst (Logging.transform a acc ch)) = fst (Logging.observe acc ch).
Proof.
  intro Hf. unfold Logging.transform. destruct (Logging.observe acc ch) as [acc1 ls].
  destruct ch; try discriminate; reflexivity.
Qed.

Lemma logging_pipe_names (Q : string -> Prop) (a : Z) (pre : list chunk) :
  forall acc,
  forallb (fun ch => negb (Shapes.is_finish ch)) pre = true ->
  (forall n, In n (Shapes.started_tool_names pre) -> Q n) ->
  Shapes.logging_names_ok Q acc ->
  Shapes.logging_names_ok Q (fst (fst (Logging.pipe a acc pre))) /\
  Logging.fullText (fst (fst (Logging.pipe a acc pre))) =
    Logging.fullText acc ++ Shapes.streamed_text pre /\
  (forall k, In k (Logging.loggedToolCalls acc) \/ In k (Shapes.tool_call_keys pre) ->
     In k (Logging.loggedToolCalls (fst (fst (Logging.pipe a acc pre))))).
Proof.
  induction pre as [|ch rest IH]; intros acc Hf HQ Hok.
  - cbn [Logging.pipe fst Shapes.streamed_text]. rewrite str_app_nil_r.
    split; [exact Hok|split; [reflexivity|intros k [Hk|[]]; exact Hk]].
  - cbn [forallb] in Hf. apply andb_prop in Hf as [Hch Hr]. apply negb_true_iff in Hch.
    assert (HQ1 : forall n, In n (Shapes.chunk_started_names ch) -> Q n).
    { intros n Hn. apply HQ. unfold Shapes.started_tool_names. cbn [flat_map].
      apply in_or_app. left. exact Hn. }
    assert (HQ2 : forall n, In n (Shapes.started_tool_names rest) -> Q n).
    { intros n Hn. apply HQ. unfold Shapes.started_tool_names in *. cbn [flat_map].
      apply in_or_app. right. exact Hn. }
    destruct (logging_observe_names Q acc ch Hch HQ1 Hok) as [Ok1 [Ft1 Kt1]].
    change (ch :: rest) with (app [ch] rest).
    rewrite (proj2 (logging_pipe_app a [ch] rest acc)).
    assert (E1 : fst (fst (Logging.pipe a acc [ch])) = fst (Logging.observe acc ch)).
    { cbn [Logging.pipe]. rewrite <- (logging_transform_not_finish a acc ch Hch).
      destruct (Logging.transform a acc ch) as [[acc1 o1] l1]. reflexivity. }
    rewrite E1.
    destruct (IH _ Hr HQ2 Ok1) as [Ok2 [Ft2 Kt2]].
    split; [exact Ok2|split].
    + rewrite Ft2, Ft1, str_app_assoc. reflexivity.
    + intros k Hk. apply Kt2. unfold Shapes.tool_call_keys in *. cbn [flat_map] in Hk.
      destruct Hk as [Hk|Hk]; [|apply in_app_or in Hk as [Hk|Hk]].
      * left. apply Kt1. left. exact Hk.
      * left. apply Kt1. right. exact Hk.
      * right. exact Hk.
Qed.

Lemma tool_call_name_key (pre : list chunk) (n : string) :
  In n (Shapes.tool_call_names pre) ->
  In n (Shapes.started_tool_names pre) /\
  exists k, In k (Shapes.tool_call_keys pre) /\
            (Shapes.has_dash n = false -> split_dash_first k = n).
Proof.
  unfold Shapes.tool_call_names, Shapes.tool_call_keys, Shapes.started_tool_names.
  rewrite in_flat_map. intros [ch [Hch Hn]].
  destruct ch; cbn [Shapes.chunk_tool_names] in Hn; try contradiction.
  destruct Hn as [->|[]].
  split.
  - apply in_flat_map. exists (ToolCall toolCallId n args input).
    split; [exact Hch|left; reflexivity].
  - exists (if truthy_str toolCallId then n ++ "-" ++ toolCallId else n ++ "-default").
    split.
    + apply in_flat_map. exists (ToolCall toolCallId n args input).
      split; [exact Hch|left; reflexivity].
    + intro Hd. destruct (truthy_str toolCallId); apply split_dash_first_key, Hd.
Qed.

Lemma unique_tools_In (keys : list string) (n : string) :
  In n (Logging.unique_tools keys) <-> exists k, In k keys /\ split_dash_first k = n.
Proof.
  unfold Logging.unique_tools. rewrite fold_addf_map, add_all_In, in_map_iff.
  split.
  - intros [[]|[k [Hk Hin]]]. exists k. split; assumption.
  - intros [k [Hin Hk]]. right. exists k. split; assumption.
Qed.

(** C4 (amended): for a stream whose chunks before [finish] are of any kind
    but [finish] (tool-input chunks included), the text handed to the
    Completion Logger is the streamed text followed by "tool:NAME" for each
    distinct tool name, each exactly once. In [model-progress] the names are
    those of the [tool-call] and [tool-input-start] chunks, in order of first
    appearance. In [model-logging], when no such name contains '-', every
    name of a [tool-call] chunk is listed and only names of [tool-call] or
    [tool-input-start] chunks are. The printed preview is that text after
    the 40-character cut of [resultSuffix_of]. *)
Theorem stream_tool_list_each_name_once (pre : list chunk) (u : usage) (r : string) (a : Z) :
  forallb (fun ch => negb (Shapes.is_finish ch)) pre = true ->
  let names := Shapes.dedup (Shapes.started_tool_names pre) in
  NoDup names /\
  (forall n, In n names <-> In n (Shapes.started_tool_names pre)) /\
  (exists shown, snd (Progress.pipe a Progress.init_acc (pre ++ [Finish u r])) =
     [Progress.logCompletion (Some u) Streaming shown
        (compose_log_text (Shapes.streamed_text pre) (tool_log names))]) /\
  (forallb (fun n => negb (Shapes.has_dash n)) (Shapes.started_tool_names pre) = true ->
   exists lnames lines shown,
     NoDup lnames /\
     (forall n, In n (Shapes.tool_call_names pre) -> In n lnames) /\
     (forall n, In n lnames -> In n (Shapes.started_tool_names pre)) /\
     snd (Logging.pipe a Logging.init_acc (pre ++ [Finish u r])) =
       app lines [Logging.logCompletion (Some u) Streaming shown
                    (compose_log_text (Shapes.streamed_text pre) (tool_log lnames)) (Some r)]).
Proof.
  intros Hf names.
  split; [|split; [|split]].
  - apply add_all_NoDup. constructor.
  - intro n. unfold names, Shapes.dedup. fold (add_all (Shapes.started_tool_names pre) []).
    rewrite add_all_In. simpl. tauto.
  - rewrite progress_pipe_app_lines. pose proof (progress_pipe_fields pre a Progress.init_acc) as H.
    pose proof (progress_pipe_quiet pre Hf a Progress.init_acc) as Hq.
    destruct (Progress.pipe a Progress.init_acc pre) as [[[a1 acc1] o1] ls1].
    destruct H as [Ha [Hft Ht]].
    cbn [snd] in Hq. subst ls1. exists (a1 - 1)%Z. cbn. rewrite Hft, Ht. reflexivity.
  - intro Hd.
    set (Q := fun n => In n (Shapes.started_tool_names pre)).
    assert (Hok0 : Shapes.logging_names_ok Q Logging.init_acc).
    { split; [intros id nm H; discriminate|intros k []]. }
    destruct (logging_pipe_names Q a pre Logging.init_acc Hf (fun n Hn => Hn) Hok0)
      as [[_ Hlog] [Hft Hkeys]].
    set (acc1 := fst (fst (Logging.pipe a Logging.init_acc pre))) in *.
    assert (Hnd : forall n, Q n -> Shapes.has_dash n = false).
    { intros n Hn. unfold Q in Hn. rewrite forallb_forall in Hd.
      apply negb_true_iff, Hd, Hn. }
    exists (Logging.unique_tools (Logging.loggedToolCalls acc1)),
           (snd (Logging.pipe a Logging.init_acc pre)), (a - 1)%Z.
    split; [|split; [|split]].
    + unfold Logging.unique_tools. rewrite fold_addf_map. apply add_all_NoDup. constructor.
    + intros n Hn. destruct (tool_call_name_key pre n Hn) as [Hs [k [Hk Hsplit]]].
      apply unique_tools_In. exists k. split.
      * apply Hkeys. right. exact Hk.
      * apply Hsplit, Hnd, Hs.
    + intros n Hn. apply unique_tools_In in Hn as [k [Hk <-]].
      destruct (Hlog k Hk) as [nm [x [-> Hq]]].
      rewrite (split_dash_first_key nm x (Hnd nm Hq)). exact Hq.
    + rewrite (proj1 (logging_pipe_app a pre [Finish u r] Logging.init_acc)). fold acc1.
      f_equal. cbn [Logging.fullText Logging.init_acc String.append] in Hft.
      cbn [Logging.pipe Logging.transform Logging.observe app snd fst].
      unfold Logging.finish_text. cbn [Logging.fullText Logging.loggedToolCalls].
      rewrite Hft. reflexivity.
Qed.

Lemma stream_tool_list_each_name_once_witness :
  forallb (fun ch => negb (Shapes.is_finish ch)) v2_tools_prefix = true /\
  exists shown,
    snd (Progress.pipe 1%Z Progress.init_acc (v2_tools_prefix ++ [Finish usage_10_2 "stop"])) =
      [Progress.logCompletion (Some usage_10_2) Streaming shown
         (compose_log_text "Looking" (tool_log ["search"; "fetch"]))].
Proof.
  assert (H : forallb (fun ch => negb (Shapes.is_finish ch)) v2_tools_prefix = true)
    by reflexivity.
  split; [exact H|].
  exact (proj1 (proj2 (proj2 (stream_tool_list_each_name_once v2_tools_prefix
                                 usage_10_2 "stop" 1%Z H)))).
Defined.

(** C4 (counterexample): two tool calls with long names; the preview of the
    completion line is cut at 40 characters and does not list the second
    name. *)
Lemma stream_tool_list_cut_at_40 :
  map Shapes.line_result_suffix (snd (Progress.pipe 1%Z Progress.init_acc two_long_tools)) =
    [Some (" | result: " ++ dq_s ++ "tool:search_documents, tool:summarize_re..." ++ dq_s)] /\
  index 0 "summarize_results"
    (" | result: " ++ dq_s ++ "tool:search_documents, tool:summarize_re..." ++ dq_s) = None.
Proof. split; vm_compute; reflexivity. Qed.

(** [model-logging] recovers a tool name from its key with [split('-')[0]]:
    names containing '-' are listed cut at their first '-', and two such
    names may collapse into one entry. *)
Lemma logging_tool_list_splits_names_at_dash :
  map Shapes.line_result_suffix (snd (Logging.pipe 1%Z Logging.init_acc hyphenated_tools)) =
    [None; None; Some (" | result: " ++ dq_s ++ "tool:get" ++ dq_s)].
Proof. vm_compute. reflexivity. Qed.

(** * Further properties of the wrappers *)

(** ** Prompt preview *)

Lemma substring0_len_le (n : nat) (s : string) :
  String.length (substring 0 n s) <= n /\ String.length (substring 0 n s) <= String.length s.
Proof.
  revert s. induction n as [|n IH]; intro s; destruct s as [|c r]; simpl; try lia.
  destruct (IH r). lia.
Qed.

Lemma substring0_full (n : nat) (s : string) :
  String.length s <= n -> substring 0 n s = s.
Proof.
  revert s. induction n as [|n IH]; intros s H; destruct s as [|c r]; simpl in *;
    try reflexivity; try lia.
  rewrite IH; [reflexivity|lia].
Qed.

Lemma substring0_short (n : nat) (s : string) :
  String.length (substring 0 n s) < n -> substring 0 n s = s.
Proof.
  revert s. induction n as [|n IH]; intros s H; destruct s as [|c r]; simpl in *;
    try reflexivity; try lia.
  rewrite IH; [reflexivity|lia].
Qed.

Lemma substring0_len_eq (n : nat) (s : string) :
  n <= String.length s -> String.length (substring 0 n s) = n.
Proof.
  revert s. induction n as [|n IH]; intros s H; destruct s as [|c r]; simpl in *;
    try reflexivity; try lia.
  rewrite IH; [reflexivity|lia].
Qed.

Lemma substring0_app (n : nat) (p q : string) :
  String.length p <= n -> substring 0 n (p ++ q) = p ++ substring 0 (n - String.length p) q.
Proof.
  revert n. induction p as [|c r IH]; intros n H; simpl in *.
  - rewrite Nat.sub_0_r. reflexivity.
  - destruct n as [|n]; [lia|]. simpl. rewrite IH; [reflexivity|lia].
Qed.

Lemma substring0_app_long (n : nat) (p q : string) :
  n <= String.length p -> substring 0 n (p ++ q) = substring 0 n p.
Proof.
  revert n. induction p as [|c r IH]; intros n H; simpl in *.
  - destruct n; [destruct q; reflexivity|lia].
  - destruct n as [|n]; [destruct q, r; reflexivity|]. simpl. rewrite IH; [reflexivity|lia].
Qed.

Lemma str_length_app (p q : string) :
  String.length (p ++ q) = String.length p + String.length q.
Proof. induction p as [|c r IH]; simpl; [reflexivity|rewrite IH; reflexivity]. Qed.

Lemma join_step_ext (F s : string) : exists x, Shapes.join_step F s = F ++ x.
Proof.
  unfold Shapes.join_step. destruct (truthy_str s); [|exists ""; apply eq_sym, str_app_nil_r].
  destruct F as [|c r]; simpl.
  - exists s. reflexivity.
  - exists (" " ++ s). reflexivity.
Qed.

Lemma fold_join_ext (l : list string) :
  forall F, exists x, fold_left Shapes.join_step l F = F ++ x.
Proof.
  induction l as [|s r IH]; intro F; simpl.
  - exists "". apply eq_sym, str_app_nil_r.
  - destruct (join_step_ext F s) as [x Hx]. destruct (IH (Shapes.join_step F s)) as [y Hy].
    exists (x ++ y). rewrite Hy, Hx, str_app_assoc. reflexivity.
Qed.

Lemma preview_inv_full (F p : string) (t : bool) :
  preview_inv F (p, t) -> Nat.leb 40 (String.length p) = true ->
  String.length p = 40 /\ 40 <= String.length F.
Proof.
  intros [H1 _] Hl. apply Nat.leb_le in Hl. cbn [fst] in H1.
  destruct (substring0_len_le 40 F) as [A B]. rewrite <- H1 in A, B. lia.
Qed.

Lemma preview_inv_stop (F x p : string) (t : bool) :
  preview_inv F (p, t) -> Nat.leb 40 (String.length p) = true ->
  preview_inv (F ++ x) (p, true).
Proof.
  intros H Hl. destruct (preview_inv_full F p t H Hl) as [Hp HF].
  destruct H as [H1 _]. split; [|split]; cbn [fst snd].
  - rewrite substring0_app_long by exact HF. exact H1.
  - discriminate.
  - intros _. exact Hp.
Qed.

Lemma preview_inv_short (F p : string) (t : bool) :
  preview_inv F (p, t) -> Nat.leb 40 (String.length p) = false -> p = F /\ t = false.
Proof.
  intros [H1 [H2 H3]] Hl. apply Nat.leb_gt in Hl. cbn [fst snd] in *.
  split.
  - rewrite H1 in Hl |- *. apply substring0_short. exact Hl.
  - destruct t; [specialize (H3 eq_refl); lia|reflexivity].
Qed.

Lemma appendText_inv (F text p : string) (t : bool) :
  preview_inv F (p, t) ->
  preview_inv (Shapes.join_step F (Shapes.sanitize text)) (appendText text (p, t)).
Proof.
  intro H. unfold appendText.
  destruct (Nat.leb PREVIEW_LIMIT (String.length p)) eqn:Hl.
  - destruct (join_step_ext F (Shapes.sanitize text)) as [x Hx]. rewrite Hx.
    exact (preview_inv_stop F x p t H Hl).
  - destruct (preview_inv_short F p t H Hl) as [-> ->]. apply Nat.leb_gt in Hl.
    unfold Shapes.join_step. fold (Shapes.sanitize text).
    destruct (truthy_str (Shapes.sanitize text)) eqn:Hs; cbn [negb]; [|exact H].
    set (san := Shapes.sanitize text) in *.
    assert (Hseg : (if truthy_str F then F ++ " " ++ san else san) =
                   F ++ (if Nat.ltb 0 (String.length F) then " " ++ san else san)).
    { destruct F; reflexivity. }
    assert (Hne : truthy_str (if Nat.ltb 0 (String.length F) then " " ++ san else san) = true).
    { destruct (Nat.ltb 0 (String.length F)); [reflexivity|exact Hs]. }
    rewrite Hseg, Hne. cbn [negb].
    set (seg := if Nat.ltb 0 (String.length F) then " " ++ san else san).
    unfold PREVIEW_LIMIT in *.
    split; [|split]; cbn [fst snd].
    + rewrite substring0_app by lia. reflexivity.
    + destruct (Nat.ltb (40 - String.length F) (String.length seg)) eqn:Hc; [discriminate|].
      intros _. apply Nat.ltb_ge in Hc. rewrite (substring0_full _ seg Hc). reflexivity.
    + destruct (Nat.ltb (40 - String.length F) (String.length seg)) eqn:Hc; [|discriminate].
      intros _. apply Nat.ltb_lt in Hc. rewrite str_length_app, substring0_len_eq by lia. lia.
Qed.

Lemma preview_parts_inv (parts : list part) :
  forall F st, preview_inv F st ->
  preview_inv (fold_left Shapes.join_step (map Shapes.sanitize (Shapes.part_texts parts)) F)
              (preview_parts parts st).
Proof.
  induction parts as [|pt rest IH]; intros F [p t] H; [exact H|].
  cbn [preview_parts fst].
  destruct (Nat.leb PREVIEW_LIMIT (String.length p)) eqn:Hl.
  - destruct (fold_join_ext (map Shapes.sanitize (Shapes.part_texts (pt :: rest))) F) as [x Hx].
    rewrite Hx. exact (preview_inv_stop F x p t H Hl).
  - set (st1 := match pt with PText t0 => appendText t0 (p, t) | PNonText => (p, t) end).
    set (F1 := match pt with PText t0 => Shapes.join_step F (Shapes.sanitize t0) | PNonText => F end).
    assert (H1 : preview_inv F1 st1).
    { unfold st1, F1. destruct pt; [apply appendText_inv|]; exact H. }
    assert (HF : fold_left Shapes.join_step (map Shapes.sanitize (Shapes.part_texts (pt :: rest))) F =
                 fold_left Shapes.join_step (map Shapes.sanitize (Shapes.part_texts rest)) F1).
    { unfold F1. destruct pt; reflexivity. }
    rewrite HF. destruct st1 as [p1 t1] eqn:E1. cbn [fst].
    destruct (Nat.leb PREVIEW_LIMIT (String.length p1)) eqn:Hl1.
    + destruct (fold_join_ext (map Shapes.sanitize (Shapes.part_texts rest)) F1) as [x Hx].
      rewrite Hx. exact (preview_inv_stop F1 x p1 t1 H1 Hl1).
    + exact (IH F1 (p1, t1) H1).
Qed.

Lemma preview_messages_inv (msgs : list message) :
  forall F st, preview_inv F st ->
  preview_inv (fold_left Shapes.join_step (map Shapes.sanitize (flat_map Shapes.message_texts msgs)) F)
              (preview_messages msgs st).
Proof.
  induction msgs as [|m rest IH]; intros F [p t] H; [exact H|].
  cbn [preview_messages fst flat_map]. rewrite map_app, fold_left_app.
  destruct (Nat.leb PREVIEW_LIMIT (String.length p)) eqn:Hl.
  - rewrite <- fold_left_app, <- map_app.
    destruct (fold_join_ext (map Shapes.sanitize (Shapes.message_texts m ++
                flat_map Shapes.message_texts rest)) F) as [x Hx].
    rewrite Hx. exact (preview_inv_stop F x p t H Hl).
  - destruct m as [c|[parts|]]; cbn [Shapes.message_texts map fold_left].
    + apply IH, appendText_inv, H.
    + apply IH, preview_parts_inv, H.
    + apply IH, H.
Qed.

Lemma substring40_empty (s : string) : substring 0 40 s = "" -> s = "".
Proof. destruct s; [reflexivity|discriminate]. Qed.

(** The prompt preview is the first 40 characters of the prompt's texts
    (contents of system messages and text parts of array contents, in order),
    each normalized and joined by single spaces; there is none exactly when
    that join is empty, and a preview is never empty. A preview not marked
    truncated is the whole join; a preview marked truncated has exactly 40
    characters. *)
Theorem prompt_preview_is_prefix_of_joined_texts (msgs : list message) :
  let full := Shapes.prompt_join msgs in
  match getPromptPreview (Some {| prompt := PromptArray msgs |}) with
  | None => full = ""
  | Some pv =>
      pv_text pv <> "" /\ full <> "" /\
      pv_text pv = substring 0 40 full /\
      (pv_truncated pv = false -> pv_text pv = full) /\
      (pv_truncated pv = true -> String.length (pv_text pv) = 40)
  end.
Proof.
  intro full.
  assert (H0 : preview_inv "" ("", false)) by (repeat split; discriminate).
  pose proof (preview_messages_inv msgs "" ("", false) H0) as H.
  fold (Shapes.prompt_join msgs) in H. fold full in H.
  unfold getPromptPreview. cbn [prompt].
  destruct (preview_messages msgs ("", false)) as [p t].
  destruct H as [H1 [H2 H3]]; cbn [fst snd] in *.
  destruct (truthy_str p) eqn:Hp; cbn [negb pv_text pv_truncated].
  - assert (Hne : p <> "").
    { intro E. rewrite E in Hp. discriminate. }
    split; [exact Hne|split; [|split; [exact H1|split; assumption]]].
    intro E. rewrite E in H1. apply Hne. exact H1.
  - unfold truthy_str in Hp. apply negb_false_iff, String.eqb_eq in Hp. rewrite Hp in H1.
    apply substring40_empty. symmetry. exact H1.
Qed.

(** A prompt made of one user message with one text part whose normalized
    text has exactly 40 characters is previewed whole but marked truncated
    (so "..." is displayed although nothing was cut); the same text as the
    only system message is previewed whole and not marked truncated. *)
Theorem prompt_preview_exactly_40 (t : string) :
  String.length (Shapes.sanitize t) = 40 ->
  getPromptPreview (Some {| prompt := PromptArray [MOther (ContentParts [PText t])] |}) =
    Some {| pv_text := Shapes.sanitize t; pv_truncated := true |} /\
  getPromptPreview (Some {| prompt := PromptArray [MSystem t] |}) =
    Some {| pv_text := Shapes.sanitize t; pv_truncated := false |}.
Proof.
  intro H.
  assert (Ht : truthy_str (Shapes.sanitize t) = true).
  { destruct (Shapes.sanitize t); [discriminate|reflexivity]. }
  assert (HA : appendText t ("", false) = (Shapes.sanitize t, false)).
  { unfold appendText. fold (Shapes.sanitize t).
    cbn -[Shapes.sanitize substring String.append truthy_str].
    rewrite Ht. cbn -[Shapes.sanitize substring String.append].
    rewrite H. cbn -[Shapes.sanitize substring].
    rewrite substring0_full by lia. reflexivity. }
  unfold getPromptPreview. cbn [prompt preview_messages preview_parts fst String.length].
  cbn [PREVIEW_LIMIT Nat.leb]. rewrite HA. cbn [fst]. rewrite H. cbn.
  rewrite Ht. cbn. split; reflexivity.
Qed.

Lemma prompt_preview_exactly_40_witness :
  String.length (Shapes.sanitize "  one  two three four five six seven eight! ") = 40 /\
  getPromptPreview (Some {| prompt := PromptArray
    [MOther (ContentParts [PText "  one  two three four five six seven eight! "])] |}) =
    Some {| pv_text := "one two three four five six seven eight!"; pv_truncated := true |}.
Proof.
  assert (H : String.length (Shapes.sanitize "  one  two three four five six seven eight! ") = 40)
    by (vm_compute; reflexivity).
  split; [exact H|].
  exact (proj1 (prompt_preview_exactly_40 _ H)).
Defined.

(** ** Completion line and tool lines *)

Lemma drop_ws_blank (l : list ascii) : forallb is_ws l = true -> drop_ws l = [].
Proof.
  induction l as [|c r IH]; simpl; intro H; [reflexivity|].
  apply andb_prop in H as [Hc Hr]. rewrite Hc. exact (IH Hr).
Qed.

Lemma resultSuffix_blank (text : string) :
  Shapes.blank text = true ->
  resultSuffix_of text = if truthy_str text then " | result: " ++ dq_s ++ dq_s else "".
Proof.
  intro H. unfold resultSuffix_of.
  assert (Ht : js_trim text = "").
  { unfold js_trim. unfold Shapes.blank in H. rewrite (drop_ws_blank _ H). reflexivity. }
  rewrite Ht. destruct (truthy_str text); reflexivity.
Qed.

(** A completion text made only of whitespace (but not empty) still gets a
    result preview, an empty quoted one; an empty text gets none. The same in
    both wrappers. *)
Theorem result_preview_of_blank_text (text : string) :
  Shapes.blank text = true ->
  let expected := if truthy_str text then " | result: " ++ dq_s ++ dq_s else "" in
  (forall u m a fr, Shapes.line_result_suffix (Logging.logCompletion u m a text fr) = Some expected) /\
  (forall u m a, Shapes.line_result_suffix (Progress.logCompletion u m a text) = Some expected).
Proof.
  intros H expected. split.
  - intros u m a fr. unfold Logging.logCompletion. cbn [Shapes.line_result_suffix].
    rewrite (resultSuffix_blank text H). reflexivity.
  - intros u m a. unfold Progress.logCompletion. cbn [Shapes.line_result_suffix].
    rewrite (resultSuffix_blank text H). reflexivity.
Qed.

Lemma result_preview_of_blank_text_witness :
  Shapes.blank "  " = true /\
  Shapes.line_result_suffix (Progress.logCompletion None Streaming 0 "  ") =
    Some (" | result: " ++ dq_s ++ dq_s).
Proof.
  assert (H : Shapes.blank "  " = true) by reflexivity.
  split; [exact H|]. exact (proj2 (result_preview_of_blank_text "  " H) None Streaming 0%Z).
Defined.

(** The text of a tool-result line has at most 103 characters (100 and
    "..."), whatever the result; a result of [undefined], for which
    [JSON.stringify] returns [undefined], is shown as "[stringify error]".
    The inline formatting of [part_006] is the same function. *)
Theorem tool_result_text_bounded :
  (forall v, String.length (Logging.formatToolResult v) <= 103) /\
  Logging.formatToolResult VUndefined = "[stringify error]" /\
  (forall v, Part006.format_result v = Logging.formatToolResult v).
Proof.
  split; [|split; [reflexivity|intro v; reflexivity]]. intro v. unfold Logging.formatToolResult.
  destruct (match v with VStr s => Some s | _ => JSON_stringify v end) as [s|]; [|simpl; lia].
  unfold TOOL_RESULT_PREVIEW_LIMIT.
  destruct (Nat.ltb 100 (String.length s)) eqn:E.
  - rewrite str_length_app. destruct (substring0_len_le 100 s). simpl. lia.
  - apply Nat.ltb_ge in E. lia.
Qed.

Lemma logging_gen_fold_text (c : list content_part) :
  forall tp m ls,
  fst (fst (fold_left Logging.gen_part c (tp, m, ls))) = app tp (flat_map Shapes.content_label c).
Proof.
  induction c as [|p rest IH]; intros tp m ls; simpl.
  - rewrite app_nil_r. reflexivity.
  - destruct p; cbn [Logging.gen_part].
    + rewrite IH, <- app_assoc. reflexivity.
    + rewrite IH, <- app_assoc. reflexivity.
    + rewrite IH. reflexivity.
    + rewrite IH. reflexivity.
Qed.

(** The completion text of a generate call lists, in content order, every
    text part and "tool:NAME" for every tool-call part, joined by ", ".
    [model-logging] keeps empty text parts as empty entries, [model-progress]
    drops them; the two texts agree when no text part is empty. *)
Theorem generate_text_of_content (c : list content_part) :
  Logging.gen_text c = join ", " (flat_map Shapes.content_label c) /\
  Progress.gen_text c = join ", " (filter truthy_str (flat_map Shapes.content_label c)) /\
  (Forall (fun p => forall t, p = CText t -> truthy_str t = true) c ->
   Logging.gen_text c = Progress.gen_text c).
Proof.
  assert (HL : Logging.gen_text c = join ", " (flat_map Shapes.content_label c)).
  { unfold Logging.gen_text. pose proof (logging_gen_fold_text c [] [] []) as H.
    destruct (fold_left Logging.gen_part c ([], [], [])) as [[tp m] ls].
    cbn [fst] in H. rewrite H. reflexivity. }
  assert (HP : Progress.gen_text c = join ", " (filter truthy_str (flat_map Shapes.content_label c))).
  { unfold Progress.gen_text. f_equal. clear HL.
    induction c as [|p rest IH]; [reflexivity|].
    cbn [map flat_map]. rewrite filter_app, <- IH. destruct p; reflexivity. }
  split; [exact HL|split; [exact HP|]].
  intro Hc. rewrite HL, HP. f_equal. symmetry. apply forallb_filter_id.
  apply forallb_forall. intros x Hx. apply in_flat_map in Hx as [p [Hp Hx]].
  rewrite Forall_forall in Hc. specialize (Hc p Hp).
  destruct p; cbn in Hx; try contradiction.
  - destruct Hx as [<-|[]]. apply (Hc text eq_refl).
  - destruct Hx as [<-|[]]. reflexivity.
Qed.

(** ** Stream transform of [model-logging] *)

Lemma logging_pipe_cons (a : Z) (acc : Logging.stream_acc) (ch : chunk) (rest : list chunk) :
  snd (Logging.pipe a acc (ch :: rest)) =
    app (snd (Logging.transform a acc ch))
        (snd (Logging.pipe a (fst (fst (Logging.transform a acc ch))) rest)).
Proof.
  cbn [Logging.pipe]. destruct (Logging.transform a acc ch) as [[acc1 out1] l1].
  cbn [fst snd]. destruct (Logging.pipe a acc1 rest) as [[acc2 out2] l2]. reflexivity.
Qed.

Lemma logging_tool_input_deltas (a : Z) (id : string) (ds : list string) (rest : list chunk) :
  forall acc s, map_get id (Logging.toolInputs acc) = Some s ->
  exists acc',
    snd (Logging.pipe a acc (map (ToolInputDelta id) ds ++ rest)) = snd (Logging.pipe a acc' rest) /\
    map_get id (Logging.toolInputs acc') = Some (s ++ Shapes.concat_all ds) /\
    Logging.toolCallIds acc' = Logging.toolCallIds acc /\
    Logging.loggedToolCalls acc' = Logging.loggedToolCalls acc.
Proof.
  induction ds as [|d ds IH]; intros acc s Hs.
  - exists acc. rewrite str_app_nil_r. auto.
  - cbn [map app]. rewrite logging_pipe_cons.
    set (acc1 := Logging.with_maps acc (map_set id (s ++ d) (Logging.toolInputs acc))
                   (Logging.toolCallIds acc) (Logging.loggedToolCalls acc)).
    assert (Ht : Logging.transform a acc (ToolInputDelta id d) = (acc1, [ToolInputDelta id d], [])).
    { unfold Logging.transform, Logging.observe. rewrite Hs. reflexivity. }
    rewrite Ht. cbn [fst snd app].
    destruct (IH acc1 (s ++ d)) as [acc' [H1 [H2 [H3 H4]]]].
    { apply map_get_set_same. }
    exists acc'. split; [exact H1|]. split; [|split; assumption].
    rewrite H2, str_app_assoc. reflexivity.
Qed.

(** A tool call whose input is streamed ([tool-input-start], deltas,
    [tool-input-end]) and then announced by its [tool-call] chunk is logged
    exactly once, with the concatenated deltas as its arguments: the
    [tool-call] chunk finds its key already logged. *)
Theorem streamed_tool_input_logged_once (a : Z) (acc : Logging.stream_acc)
    (id name : string) (ds : list string) (args input : option value) :
  truthy_str id = true -> truthy_str name = true ->
  set_has (name ++ "-" ++ id) (Logging.loggedToolCalls acc) = false ->
  snd (Logging.pipe a acc ([ToolInputStart id name] ++ map (ToolInputDelta id) ds ++
                           [ToolInputEnd id; ToolCall id name args input])) =
    [ToolCallLine name (Shapes.concat_all ds)].
Proof.
  intros Hid Hname Hnew. cbn [app]. rewrite logging_pipe_cons.
  set (acc1 := Logging.with_maps acc (map_set id "" (Logging.toolInputs acc))
                 (map_set id name (Logging.toolCallIds acc)) (Logging.loggedToolCalls acc)).
  change (Logging.transform a acc (ToolInputStart id name))
    with (acc1, [ToolInputStart id name], @nil logline).
  cbn [fst snd app].
  destruct (logging_tool_input_deltas a id ds [ToolInputEnd id; ToolCall id name args input]
              acc1 "" (map_get_set_same _ _ _)) as [acc' [H1 [H2 [H3 H4]]]].
  rewrite H1. cbn [String.append] in H2.
  assert (Hids : map_get id (Logging.toolCallIds acc') = Some name).
  { rewrite H3. apply map_get_set_same. }
  assert (Hlog : set_has (name ++ "-" ++ id) (Logging.loggedToolCalls acc') = false).
  { rewrite H4. exact Hnew. }
  rewrite logging_pipe_cons.
  unfold Logging.transform at 1 2, Logging.observe at 1 2.
  rewrite Hids, Hname. cbv zeta. rewrite Hlog, H2. cbn [fst snd app].
  rewrite logging_pipe_cons. cbn [Logging.pipe app].
  unfold Logging.transform, Logging.observe. cbv zeta. rewrite Hid.
  assert (Hin : set_has (name ++ "-" ++ id)
                  (Logging.loggedToolCalls
                     (Logging.with_maps acc' (map_delete id (Logging.toolInputs acc'))
                        (Logging.toolCallIds acc')
                        (set_add (name ++ "-" ++ id) (Logging.loggedToolCalls acc')))) = true).
  { cbn [Logging.loggedToolCalls Logging.with_maps]. apply set_has_In, set_add_In. right. reflexivity. }
  rewrite Hin. reflexivity.
Qed.

Lemma streamed_tool_input_logged_once_witness :
  (truthy_str "call_7" = true /\ truthy_str "search" = true /\
   set_has ("search" ++ "-" ++ "call_7") (Logging.loggedToolCalls Logging.init_acc) = false) /\
  snd (Logging.pipe 1%Z Logging.init_acc
         ([ToolInputStart "call_7" "search"] ++ map (ToolInputDelta "call_7") ["{q"; ":1}"] ++
          [ToolInputEnd "call_7"; ToolCall "call_7" "search" None None])) =
    [ToolCallLine "search" (Shapes.concat_all ["{q"; ":1}"])].
Proof.
  split; [repeat split|].
  apply (streamed_tool_input_logged_once 1%Z Logging.init_acc "call_7" "search"
           ["{q"; ":1}"] None None); reflexivity.
Defined.

Ltac split_observe :=
  repeat (cbn; match goal with
               | |- context [if ?b then _ else _] => destruct b
               | |- context [match map_get ?k ?m with _ => _ end] => destruct (map_get k m)
               end).

Lemma logging_observe_reasoning (acc : Logging.stream_acc) (ch : chunk) :
  Logging.reasoningText (fst (Logging.observe acc ch)) =
    Logging.reasoningText acc ++ Shapes.reasoning_deltas [ch].
Proof.
  unfold Logging.observe.
  destruct ch; cbn [Shapes.reasoning_deltas fold_right]; rewrite ?str_app_nil_r;
    split_observe; reflexivity.
Qed.

Lemma logging_transform_reasoning (a : Z) (acc : Logging.stream_acc) (ch : chunk) :
  Logging.reasoningText (fst (fst (Logging.transform a acc ch))) =
    Logging.reasoningText acc ++ Shapes.reasoning_deltas [ch].
Proof.
  rewrite <- logging_observe_reasoning. unfold Logging.transform.
  destruct (Logging.observe acc ch) as [acc1 ls]. destruct ch; reflexivity.
Qed.

Lemma logging_pipe_reasoning (a : Z) (chs : list chunk) :
  forall acc, Logging.reasoningText (fst (fst (Logging.pipe a acc chs))) =
              Logging.reasoningText acc ++ Shapes.reasoning_deltas chs.
Proof.
  induction chs as [|ch rest IH]; intro acc.
  - simpl. apply eq_sym, str_app_nil_r.
  - change (ch :: rest) with (app [ch] rest).
    rewrite (proj2 (logging_pipe_app a [ch] rest acc)), IH.
    cbn [Logging.pipe]. pose proof (logging_transform_reasoning a acc ch) as H.
    destruct (Logging.transform a acc ch) as [[acc1 out1] ls1]. cbn [fst] in *.
    rewrite H, str_app_assoc. f_equal. cbn [Shapes.reasoning_deltas fold_right app].
    destruct ch; rewrite ?str_app_nil_r; reflexivity.
Qed.

(** The summary written at a [reasoning-end] chunk covers every reasoning
    delta since the stream started: the reasoning text is never reset, not
    by an earlier [reasoning-end] nor by [finish]. *)
Theorem reasoning_summary_accumulates (a : Z) (pre : list chunk) :
  snd (Logging.pipe a Logging.init_acc (pre ++ [ReasoningEnd])) =
    app (snd (Logging.pipe a Logging.init_acc pre))
        [ReasoningCompleteLine (Shapes.reasoning_summary (Shapes.reasoning_deltas pre))].
Proof.
  rewrite (proj1 (logging_pipe_app a pre [ReasoningEnd] Logging.init_acc)). f_equal.
  pose proof (logging_pipe_reasoning a pre Logging.init_acc) as H.
  destruct (Logging.pipe a Logging.init_acc pre) as [[acc out] ls]. cbn [fst] in H |- *.
  reflexivity || (cbn; rewrite H; reflexivity).
Qed.

Lemma logging_observe_finished (acc : Logging.stream_acc) (ch : chunk) :
  Logging.streamFinished (fst (Logging.observe acc ch)) = Logging.streamFinished acc.
Proof. unfold Logging.observe. destruct ch; split_observe; reflexivity. Qed.

Lemma logging_transform_finished (a : Z) (acc : Logging.stream_acc) (ch : chunk) :
  Logging.streamFinished (fst (fst (Logging.transform a acc ch))) =
    Logging.streamFinished acc || Shapes.is_finish ch.
Proof.
  rewrite <- (logging_observe_finished acc ch). unfold Logging.transform.
  destruct (Logging.observe acc ch) as [acc1 ls].
  destruct ch; cbn; rewrite ?orb_false_r, ?orb_true_r; reflexivity.
Qed.

Lemma logging_pipe_finished (a : Z) (chs : list chunk) :
  forall acc, Logging.streamFinished (fst (fst (Logging.pipe a acc chs))) =
              Logging.streamFinished acc || existsb Shapes.is_finish chs.
Proof.
  induction chs as [|ch rest IH]; intro acc.
  - simpl. rewrite orb_false_r. reflexivity.
  - cbn [Logging.pipe existsb]. pose proof (logging_transform_finished a acc ch) as H.
    destruct (Logging.transform a acc ch) as [[acc1 out1] ls1]. cbn [fst] in H.
    specialize (IH acc1). destruct (Logging.pipe a acc1 rest) as [[acc2 out2] ls2].
    cbn [fst] in *. rewrite IH, H, orb_assoc. reflexivity.
Qed.

(** When the source stream closes, [flush] always takes one off the counter,
    and writes the "ended without finish" warning exactly when no [finish]
    chunk went through the stream. *)
Theorem flush_warns_iff_no_finish (a a' : Z) (chunks : list chunk) :
  let acc := fst (fst (Logging.pipe a Logging.init_acc chunks)) in
  fst (fst (Logging.flush a' acc)) = (a' - 1)%Z /\
  snd (Logging.flush a' acc) =
    (if existsb Shapes.is_finish chunks then [] else [NoFinishWarning (a' - 1)%Z]).
Proof.
  intro acc. pose proof (logging_pipe_finished a chunks Logging.init_acc) as H.
  fold acc in H. cbn [Logging.streamFinished Logging.init_acc orb] in H.
  unfold Logging.flush. rewrite H.
  destruct (existsb Shapes.is_finish chunks); split; reflexivity.
Qed.

(** ** Counter of [model-progress] under interleaving *)

Lemma progress_chunk_steps_net (chs : list chunk) :
  forall acc, translations (Progress.chunk_steps acc chs) (- Z.of_nat (Shapes.count_finish chs))%Z.
Proof.
  induction chs as [|ch rest IH]; intro acc; [constructor|].
  cbn [Progress.chunk_steps].
  replace (- Z.of_nat (Shapes.count_finish (ch :: rest)))%Z
    with ((if Shapes.is_finish ch then -1 else 0) + - Z.of_nat (Shapes.count_finish rest))%Z.
  - constructor; [|apply IH]. intro a. destruct ch; cbn; lia.
  - unfold Shapes.count_finish. cbn [filter]. destruct (Shapes.is_finish ch); cbn [length]; lia.
Qed.

Lemma progress_thread_net (c : call) : translations (Progress.thread c) (Shapes.progress_leftover c).
Proof.
  destruct c as [p o|p o]; cbn [Progress.thread Shapes.progress_leftover].
  - change 0%Z with (1 + (-1 + 0))%Z.
    constructor; [intro a; reflexivity|]. constructor; [|constructor].
    intro a. destruct o; reflexivity.
  - destruct o as [e|chunks|chunks e].
    + change 0%Z with (1 + (-1 + 0))%Z.
      constructor; [intro a; reflexivity|]. constructor; [|constructor].
      intro a. reflexivity.
    + replace (1 - Z.of_nat (Shapes.count_finish chunks))%Z
        with (1 + (0 + - Z.of_nat (Shapes.count_finish chunks)))%Z by lia.
      constructor; [intro a; reflexivity|]. constructor; [intro a; simpl; lia|].
      apply progress_chunk_steps_net.
    + replace (1 - Z.of_nat (Shapes.count_finish chunks))%Z
        with (1 + (0 + - Z.of_nat (Shapes.count_finish chunks)))%Z by lia.
      constructor; [intro a; reflexivity|]. constructor; [intro a; simpl; lia|].
      apply progress_chunk_steps_net.
Qed.

(** With [model-progress], once every step of every call has run, in any
    interleaving, the counter equals the sum over the streaming calls whose
    stream opened of 1 minus their number of [finish] chunks: it is back at 0
    exactly when those streams balance, e.g. each has one [finish]; a stream
    without [finish] leaves 1, a stream with two takes one too many. *)
Theorem progress_counter_after_all_steps (calls : list call) (sched : list nat) :
  all_completed (fst (run_schedule sched (map Progress.thread calls) 0%Z)) ->
  snd (run_schedule sched (map Progress.thread calls) 0%Z) =
    Shapes.sumZ (map Shapes.progress_leftover calls).
Proof.
  intro Hc.
  assert (Hf : forall cs, Forall2 translations (map Progress.thread cs)
                                               (map Shapes.progress_leftover cs)).
  { induction cs as [|c cs IH]; simpl; [constructor|constructor; [apply progress_thread_net|exact IH]]. }
  destruct (run_schedule_net sched _ _ 0%Z (Hf calls)) as [ds' [Hds' Heq]].
  rewrite (completed_net_zero _ _ Hds' Hc) in Heq. lia.
Qed.

Lemma progress_counter_after_all_steps_witness :
  all_completed (fst (run_schedule [0; 1; 0; 1; 0; 1; 0] (map Progress.thread
    [StreamCall None (StreamOk [Finish usage_10_2 "stop"; Finish usage_10_2 "stop"]);
     unfinished_stream]) 0%Z)) /\
  snd (run_schedule [0; 1; 0; 1; 0; 1; 0] (map Progress.thread
    [StreamCall None (StreamOk [Finish usage_10_2 "stop"; Finish usage_10_2 "stop"]);
     unfinished_stream]) 0%Z) = 0%Z.
Proof.
  assert (H : all_completed (fst (run_schedule [0; 1; 0; 1; 0; 1; 0] (map Progress.thread
    [StreamCall None (StreamOk [Finish usage_10_2 "stop"; Finish usage_10_2 "stop"]);
     unfinished_stream]) 0%Z))) by (vm_compute; repeat constructor).
  split; [exact H|].
  exact (progress_counter_after_all_steps _ _ H).
Defined.

(** ** Tool lines of a generate call in [model-logging] *)



Lemma gen_fold_lines_app (c : list content_part) :
  forall tp m ls, exists more, snd (fold_left Logging.gen_part c (tp, m, ls)) = app ls more.
Proof.
  induction c as [|p rest IH]; intros tp m ls; cbn [fold_left].
  - exists []. apply eq_sym, app_nil_r.
  - destruct p; cbn [Logging.gen_part];
      match goal with |- context [fold_left _ rest (?x, ?y, ?z)] =>
        destruct (IH x y z) as [more Hm]; rewrite Hm end;
      first [exists more; reflexivity | eexists; rewrite <- app_assoc; reflexivity].
Qed.



Lemma logging_finish_clears (a : Z) (acc : Logging.stream_acc) (u : usage) (r : string) :
  let acc' := fst (fst (Logging.transform a acc (Finish u r))) in
  Logging.toolInputs acc' = [] /\ Logging.toolCallIds acc' = [] /\ Logging.loggedToolCalls acc' = [].
Proof. repeat split. Qed.

(** [finish] empties the tool maps of the stream: a [tool-result] chunk after
    it is attributed to "unknown", and a [tool-call] chunk after it is logged
    again, even when its id was seen before [finish]. *)
Theorem finish_resets_tool_tracking (a : Z) (pre : list chunk) (u : usage) (r : string)
    (id name : string) (args input : option value) (res : value) :
  snd (Logging.pipe a Logging.init_acc (app pre [Finish u r; ToolResult id name res])) =
    app (snd (Logging.pipe a Logging.init_acc (app pre [Finish u r])))
        [ToolResultLine "unknown" (Logging.formatToolResult res)] /\
  snd (Logging.pipe a Logging.init_acc (app pre [Finish u r; ToolCall id name args input])) =
    app (snd (Logging.pipe a Logging.init_acc (app pre [Finish u r])))
        [ToolCallLine name (Logging.getToolArguments args input)].
Proof.
  assert (E : forall ch, app pre [Finish u r; ch] = app (app pre [Finish u r]) [ch]).
  { intro ch. rewrite <- app_assoc. reflexivity. }
  rewrite !E, !(proj1 (logging_pipe_app a (app pre [Finish u r]) _ Logging.init_acc)).
  rewrite (proj2 (logging_pipe_app a pre [Finish u r] Logging.init_acc)).
  cbn [Logging.pipe].
  destruct (logging_finish_clears a (fst (fst (Logging.pipe a Logging.init_acc pre))) u r)
    as [H1 [H2 H3]].
  destruct (Logging.transform a (fst (fst (Logging.pipe a Logging.init_acc pre))) (Finish u r))
    as [[acc1 out1] ls1].
  cbn [fst snd] in *.
  split; f_equal; unfold Logging.transform, Logging.observe; cbv zeta.
  - rewrite H2. reflexivity.
  - rewrite H3. destruct (truthy_str id); reflexivity.
Qed.

(** ** Completion text of [model-progress] and [part_006] streams *)

Lemma part006_observe_fields (acc : Part006.stream_acc) (ch : chunk) :
  Part006.fullText (fst (Part006.observe acc ch)) = Part006.fullText acc ++ Shapes.chunk_text ch /\
  Part006.toolNames (fst (Part006.observe acc ch)) =
    add_all (Shapes.chunk_started_names ch) (Part006.toolNames acc).
Proof.
  unfold Part006.observe. destruct acc as [ft nm ti ids lg].
  destruct ch; cbn [Shapes.chunk_text Shapes.chunk_started_names];
    split_observe; rewrite ?str_app_nil_r; split; reflexivity.
Qed.

Lemma part006_transform_fields (a : Z) (acc : Part006.stream_acc) (ch : chunk) :
  let '(a1, acc1, _, _) := Part006.transform a acc ch in
  a1 = (a - (if Shapes.is_finish ch then 1 else 0))%Z /\
  Part006.fullText acc1 = Part006.fullText acc ++ Shapes.chunk_text ch /\
  Part006.toolNames acc1 = add_all (Shapes.chunk_started_names ch) (Part006.toolNames acc).
Proof.
  pose proof (part006_observe_fields acc ch) as [Hf Ht].
  unfold Part006.transform. destruct (Part006.observe acc ch) as [acc1 ls].
  cbn [fst] in Hf, Ht.
  destruct ch; cbn [Shapes.is_finish Part006.fullText Part006.toolNames Part006.mk];
    (split; [lia|split; assumption]).
Qed.

Lemma part006_pipe_fields (pre : list chunk) :
  forall a acc,
  let '(a1, acc1, _, _) := Part006.pipe a acc pre in
  a1 = (a - Z.of_nat (Shapes.count_finish pre))%Z /\
  Part006.fullText acc1 = Part006.fullText acc ++ Shapes.streamed_text pre /\
  Part006.toolNames acc1 = add_all (Shapes.started_tool_names pre) (Part006.toolNames acc).
Proof.
  induction pre as [|ch rest IH]; intros a acc.
  - cbn. rewrite str_app_nil_r. repeat split; lia.
  - cbn [Part006.pipe]. pose proof (part006_transform_fields a acc ch) as H.
    destruct (Part006.transform a acc ch) as [[[a1 acc1] o1] l1].
    specialize (IH a1 acc1). destruct (Part006.pipe a1 acc1 rest) as [[[a2 acc2] o2] l2].
    destruct H as [Ha [Hf Ht]]. destruct IH as [Ia [If It]].
    split; [|split].
    + rewrite Ia, Ha. unfold Shapes.count_finish. cbn [filter].
      destruct (Shapes.is_finish ch); cbn [length]; lia.
    + rewrite If, Hf, str_app_assoc. reflexivity.
    + rewrite It, Ht. unfold Shapes.started_tool_names, add_all. cbn [flat_map].
      rewrite fold_left_app. reflexivity.
Qed.

Lemma part006_pipe_app_lines (l1 l2 : list chunk) :
  forall a acc,
  snd (Part006.pipe a acc (app l1 l2)) =
    let '(a1, acc1, _, ls1) := Part006.pipe a acc l1 in app ls1 (snd (Part006.pipe a1 acc1 l2)).
Proof.
  induction l1 as [|ch rest IH]; intros a acc; [reflexivity|].
  cbn [app Part006.pipe]. destruct (Part006.transform a acc ch) as [[[a1 acc1] o1] ls1].
  specialize (IH a1 acc1).
  destruct (Part006.pipe a1 acc1 (app rest l2)) as [[[aA accA] oA] lA].
  destruct (Part006.pipe a1 acc1 rest) as [[[aB accB] oB] lB].
  cbn [snd] in *. rewrite IH, app_assoc. reflexivity.
Qed.

(** In [model-progress] and in [part_006], the completion line of any
    [finish] chunk covers the whole stream before it, earlier [finish] chunks
    included: all streamed text, then "tool:NAME" for each distinct name of a
    [tool-call] or [tool-input-start] chunk, once, in order of first
    appearance and unaltered. The text does not depend on the counter, which
    other calls may change meanwhile. *)
Theorem completion_text_covers_whole_stream (a : Z) (pre : list chunk) (u : usage) (r : string) :
  let text := compose_log_text (Shapes.streamed_text pre)
                (tool_log (Shapes.dedup (Shapes.started_tool_names pre))) in
  (exists lines shown, snd (Progress.pipe a Progress.init_acc (app pre [Finish u r])) =
     app lines [Progress.logCompletion (Some u) Streaming shown text]) /\
  (exists lines shown, snd (Part006.pipe a Part006.init_acc (app pre [Finish u r])) =
     app lines [Part006.logCompletion (Some u) Streaming shown text]).
Proof.
  intros text. split.
  - rewrite progress_pipe_app_lines. pose proof (progress_pipe_fields pre a Progress.init_acc) as H.
    destruct (Progress.pipe a Progress.init_acc pre) as [[[a1 acc1] o1] ls1].
    destruct H as [_ [Hf Ht]]. exists ls1, (a1 - 1)%Z. cbn. rewrite Hf, Ht. reflexivity.
  - rewrite part006_pipe_app_lines. pose proof (part006_pipe_fields pre a Part006.init_acc) as H.
    destruct (Part006.pipe a Part006.init_acc pre) as [[[a1 acc1] o1] ls1].
    destruct H as [_ [Hf Ht]]. exists ls1, (a1 - 1)%Z.
    unfold Part006.pipe, Part006.transform.
    destruct acc1. cbn in Hf, Ht |- *. rewrite Hf, Ht. reflexivity.
Qed.

Lemma part006_chunk_steps_net (closes : bool) (chs : list chunk) :
  forall acc, translations (Part006.chunk_steps closes acc chs)
                           (- Z.of_nat (Shapes.count_finish chs))%Z.
Proof.
  induction chs as [|ch rest IH]; intro acc.
  - cbn [Part006.chunk_steps]. destruct closes; [|constructor].
    change (- Z.of_nat (Shapes.count_finish []))%Z with (0 + 0)%Z.
    constructor; [intro a; lia|constructor].
  - cbn [Part006.chunk_steps].
    replace (- Z.of_nat (Shapes.count_finish (ch :: rest)))%Z
      with ((if Shapes.is_finish ch then -1 else 0) + - Z.of_nat (Shapes.count_finish rest))%Z.
    + constructor; [|apply IH]. intro a.
      pose proof (part006_transform_fields a acc ch) as H.
      destruct (Part006.transform a acc ch) as [[[a1 acc1] o1] l1].
      destruct H as [Ha _]. rewrite Ha. destruct (Shapes.is_finish ch); lia.
    + unfold Shapes.count_finish. cbn [filter]. destruct (Shapes.is_finish ch); cbn [length]; lia.
Qed.

Lemma part006_thread_net (c : call) : translations (Part006.thread c) (Shapes.progress_leftover c).
Proof.
  destruct c as [p o|p o]; cbn [Part006.thread Shapes.progress_leftover].
  - change 0%Z with (1 + (-1 + 0))%Z.
    constructor; [intro a; reflexivity|]. constructor; [|constructor].
    intro a. unfold Part006.gen_end. destruct o as [content u|e]; [|reflexivity].
    destruct (fold_left Part006.gen_part content ([], [], [])) as [[tp m] ls]. reflexivity.
  - destruct o as [e|chunks|chunks e].
    + change 0%Z with (1 + (-1 + 0))%Z.
      constructor; [intro a; reflexivity|]. constructor; [|constructor].
      intro a. reflexivity.
    + replace (1 - Z.of_nat (Shapes.count_finish chunks))%Z
        with (1 + (0 + - Z.of_nat (Shapes.count_finish chunks)))%Z by lia.
      constructor; [intro a; reflexivity|]. constructor; [intro a; simpl; lia|].
      apply part006_chunk_steps_net.
    + replace (1 - Z.of_nat (Shapes.count_finish chunks))%Z
        with (1 + (0 + - Z.of_nat (Shapes.count_finish chunks)))%Z by lia.
      constructor; [intro a; reflexivity|]. constructor; [intro a; simpl; lia|].
      apply part006_chunk_steps_net.
Qed.

(** [part_006] keeps the counter as [model-progress] does: once every step of
    every call has run, in any interleaving, it equals the sum over the
    streaming calls whose stream opened of 1 minus their number of [finish]
    chunks; its [flush] does not take back the count of a stream that closed
    without [finish]. *)
Theorem part006_counter_after_all_steps (calls : list call) (sched : list nat) :
  all_completed (fst (run_schedule sched (map Part006.thread calls) 0%Z)) ->
  snd (run_schedule sched (map Part006.thread calls) 0%Z) =
    Shapes.sumZ (map Shapes.progress_leftover calls).
Proof.
  intro Hc.
  assert (Hf : forall cs, Forall2 translations (map Part006.thread cs)
                                               (map Shapes.progress_leftover cs)).
  { induction cs as [|c cs IH]; simpl; [constructor|constructor; [apply part006_thread_net|exact IH]]. }
  destruct (run_schedule_net sched _ _ 0%Z (Hf calls)) as [ds' [Hds' Heq]].
  rewrite (completed_net_zero _ _ Hds' Hc) in Heq. lia.
Qed.

Lemma part006_counter_after_all_steps_witness :
  all_completed (fst (run_schedule [0; 0; 0; 0] (map Part006.thread [unfinished_stream]) 0%Z)) /\
  snd (run_schedule [0; 0; 0; 0] (map Part006.thread [unfinished_stream]) 0%Z) = 1%Z.
Proof.
  assert (H : all_completed (fst (run_schedule [0; 0; 0; 0]
                 (map Part006.thread [unfinished_stream]) 0%Z))) by (vm_compute; repeat constructor).
  split; [exact H|]. exact (part006_counter_after_all_steps _ _ H).
Defined.
